(** * Tables: the tabular object-class utilities (cls_tabular_utils.h)

    A shallow embedding of the header [src/cls/tabular/cls_tabular_utils.h]:
    the index-key codec ([u64tostr], [strtou64]), the column descriptor
    [col_info] with its two constructors, [toString] and [compareColInfo],
    the typed predicate [TypedPredicate] with its validating constructor and
    its copy constructor, the lineitem test schema, and the aggregate
    update [computeAgg].

    Conventions.
    - A [std::string] is a [list ascii] ([cstring]).
    - C++ [int] and [uint64_t] values are integers of [Z]; the range of the
      type is a predicate ([is_int], [is_uint64]) and wrap-around is written
      out where the code computes.
    - Unscoped enums ([SkyDataType], [SkyOpType], [TablesErrCodes]) are [int]
      constants, as the code stores and switches on them as [int].
    - A C++ evaluation that may stop is an [outcome]: a value, a failed
      [assert] (assertions are taken as compiled in), a thrown exception, an
      error code of [TablesErrCodes] (for the functions whose bodies lie
      outside the header), or undefined behaviour. *)

From Stdlib Require Import Floats ZArith List Bool Ascii String Lia.
Import ListNotations.
Local Open Scope Z_scope.

(* ================================================================== *)
(** * Part I: definitions                                              *)
(* ================================================================== *)

Definition cstring : Type := list ascii.

Definition lit (s : string) : cstring := list_ascii_of_string s.

(** ** Outcomes *)

Inductive cpp_exception : Type :=
| invalid_argument
| out_of_range
| bad_lexical_cast.

Inductive outcome (A : Type) : Type :=
| Ok (a : A)
| AssertionFailed
| Thrown (e : cpp_exception)
| Failed (code : Z)
| Undefined.

Arguments Ok {A} a.
Arguments AssertionFailed {A}.
Arguments Thrown {A} e.
Arguments Failed {A} code.
Arguments Undefined {A}.

Definition bind {A B : Type} (m : outcome A) (k : A -> outcome B) : outcome B :=
  match m with
  | Ok a => k a
  | AssertionFailed => AssertionFailed
  | Thrown e => Thrown e
  | Failed c => Failed c
  | Undefined => Undefined
  end.

Definition assert (c : bool) : outcome unit :=
  if c then Ok tt else AssertionFailed.

Notation "x <- m ;; k" := (bind m (fun x => k))
  (at level 61, m at next level, right associativity).
Notation "'assert!' c ;; k" := (bind (assert c) (fun _ => k))
  (at level 61, c at next level, right associativity).

Definition succeeded {A : Type} (m : outcome A) : bool :=
  match m with Ok _ => true | _ => false end.

(** ** Integer types *)

Definition INT_MIN : Z := - 2 ^ 31.
Definition INT_MAX : Z := 2 ^ 31 - 1.
Definition UINT64_MAX : Z := 2 ^ 64 - 1.

Definition is_int (v : Z) : Prop := INT_MIN <= v <= INT_MAX.
Definition is_uint64 (v : Z) : Prop := 0 <= v <= UINT64_MAX.

(** Two's complement reduction to 64 bits, signed and unsigned. *)
Definition wrap_u64 (v : Z) : Z := v mod 2 ^ 64.
Definition wrap_s64 (v : Z) : Z := (v + 2 ^ 63) mod 2 ^ 64 - 2 ^ 63.

(** [errno] value of EIO on the target (Linux). *)
Definition EIO : Z := 5.

(** ** The standard library, as far as the header uses it *)

Module Std.

Definition code (c : ascii) : Z := Z.of_N (N_of_ascii c).

Definition char_eqb (a b : ascii) : bool := code a =? code b.

(** [isspace] in the C locale. *)
Definition isspace (c : ascii) : bool :=
  (code c =? 32) || ((9 <=? code c) && (code c <=? 13)).

Definition isdigit (c : ascii) : bool :=
  (48 <=? code c) && (code c <=? 57).

Definition digit_char (d : Z) : ascii := ascii_of_N (Z.to_N (48 + d)).

Definition digit_val (c : ascii) : Z := code c - 48.

(** Value of a run of decimal digits, most significant first. *)
Definition digits_value (ds : cstring) : Z :=
  fold_left (fun acc c => acc * 10 + digit_val c) ds 0.

(** Decimal digits of a non-negative integer, produced from the least
    significant one; [fuel] bounds the number of digits. *)
Fixpoint utoa_loop (fuel : nat) (v : Z) (acc : cstring) : cstring :=
  match fuel with
  | O => acc
  | S f =>
      let acc' := digit_char (v mod 10) :: acc in
      if v / 10 =? 0 then acc' else utoa_loop f (v / 10) acc'
  end.

(** A non-negative [v] has at most [log2 v + 1] decimal digits. *)
Definition utoa (v : Z) : cstring :=
  utoa_loop (S (Z.to_nat (Z.log2 v))) v [].

(** [std::to_string(int)]. *)
Definition to_string (v : Z) : cstring :=
  if v <? 0 then "-"%char :: utoa (- v) else utoa v.

(** [std::to_string(bool)]: the argument is promoted to [int]. *)
Definition to_string_bool (b : bool) : cstring :=
  to_string (if b then 1 else 0).

(** [s.c_str()] read back as a C string: it ends at the first NUL. *)
Fixpoint c_str (s : cstring) : cstring :=
  match s with
  | [] => []
  | c :: r => if code c =? 0 then [] else c :: c_str r
  end.

Fixpoint skip_space (s : cstring) : cstring :=
  match s with
  | [] => []
  | c :: r => if isspace c then skip_space r else s
  end.

Fixpoint take_digits (s : cstring) : cstring :=
  match s with
  | [] => []
  | c :: r => if isdigit c then c :: take_digits r else []
  end.

Definition split_sign (s : cstring) : bool * cstring :=
  match s with
  | c :: r =>
      if char_eqb c "-" then (true, r)
      else if char_eqb c "+" then (false, r)
      else (false, s)
  | [] => (false, [])
  end.

(** [std::stoi(const char* )], base 10: leading white space, an optional
    sign, the longest run of digits; no digit is [invalid_argument], a
    value outside [int] is [out_of_range]; what follows the digits is
    ignored. *)
Definition stoi (s : cstring) : outcome Z :=
  let '(neg, body) := split_sign (skip_space s) in
  match take_digits body with
  | [] => Thrown invalid_argument
  | ds =>
      let v := if neg then - digits_value ds else digits_value ds in
      if (INT_MIN <=? v) && (v <=? INT_MAX) then Ok v
      else Thrown out_of_range
  end.

(** [os << std::setw(w) << std::setfill(fill) << s] with the default
    (right) adjustment: fill characters go in front, nothing is cut. *)
Definition pad_left (w : nat) (fill : ascii) (s : cstring) : cstring :=
  repeat fill (w - List.length s) ++ s.

(** [operator==] and [operator<] of [std::string]. *)
Fixpoint str_eqb (a b : cstring) : bool :=
  match a, b with
  | [], [] => true
  | x :: a', y :: b' => char_eqb x y && str_eqb a' b'
  | _, _ => false
  end.

Fixpoint str_ltb (a b : cstring) : bool :=
  match a, b with
  | _, [] => false
  | [], _ :: _ => true
  | x :: a', y :: b' =>
      if code x <? code y then true
      else if code y <? code x then false
      else str_ltb a' b'
  end.

(** [s[0]]: the first character, NUL for the empty string. *)
Definition front (s : cstring) : ascii :=
  match s with
  | c :: _ => c
  | [] => Ascii.zero
  end.

End Std.

(** ** boost::lexical_cast<uint64_t>(std::string) *)

Module Boost.

(** The whole string is read: an optional sign, then one or more decimal
    digits and nothing else; a value above [UINT64_MAX] is refused; a
    leading minus negates the result modulo 2^64. *)
Definition lexical_cast_u64 (s : cstring) : outcome Z :=
  let '(neg, body) := Std.split_sign s in
  match body with
  | [] => Thrown bad_lexical_cast
  | _ =>
      if forallb Std.isdigit body then
        let v := Std.digits_value body in
        if v <=? UINT64_MAX
        then Ok (if neg then wrap_u64 (0 - v) else v)
        else Thrown bad_lexical_cast
      else Thrown bad_lexical_cast
  end.

End Boost.

(** ** The regular-expression engine behind [re2::RE2]

    The engine is a collaborator of the header, not part of it: all the
    header asks of it is whether a pattern compiles ([RE2::ok]) and the
    pattern an object was built from ([RE2::pattern]). *)

Class RegexBackend : Type := { compiles : cstring -> bool }.

Record RE2 : Type := { re_pattern : cstring; re_ok : bool }.

Definition RE2_new {RB : RegexBackend} (pattern : cstring) : RE2 :=
  {| re_pattern := pattern; re_ok := compiles pattern |}.

(** ** C++ value types a predicate is instantiated with, and their traits *)

Inductive cpp_type : Type :=
| t_bool
| t_char            (* char *)
| t_schar           (* signed char, int8_t *)
| t_uchar           (* unsigned char, uint8_t *)
| t_short
| t_ushort
| t_int
| t_uint
| t_long            (* int64_t *)
| t_ulong           (* uint64_t *)
| t_float
| t_double
| t_string          (* std::string *)
| t_vector (elem : cpp_type).

Fixpoint is_same (a b : cpp_type) : bool :=
  match a, b with
  | t_bool, t_bool | t_char, t_char | t_schar, t_schar | t_uchar, t_uchar
  | t_short, t_short | t_ushort, t_ushort | t_int, t_int | t_uint, t_uint
  | t_long, t_long | t_ulong, t_ulong | t_float, t_float
  | t_double, t_double | t_string, t_string => true
  | t_vector a', t_vector b' => is_same a' b'
  | _, _ => false
  end.

Definition is_integral (t : cpp_type) : bool :=
  match t with
  | t_bool | t_char | t_schar | t_uchar | t_short | t_ushort
  | t_int | t_uint | t_long | t_ulong => true
  | _ => false
  end.

Definition is_floating_point (t : cpp_type) : bool :=
  match t with
  | t_float | t_double => true
  | _ => false
  end.

Definition is_arithmetic (t : cpp_type) : bool :=
  is_integral t || is_floating_point t.

(** On the target (x86-64 Linux, as for [EIO]) plain [char] is signed. *)
Definition is_unsigned (t : cpp_type) : bool :=
  match t with
  | t_bool | t_uchar | t_ushort | t_uint | t_ulong => true
  | _ => false
  end.

(** What the constructor of [TypedPredicate<T>] needs of [T]: its identity
    for the type traits, and the assignment [pattern = this->Val()] to a
    [std::string]. *)
Class ValueType (T : Type) : Type := {
  type_of : cpp_type;
  as_pattern : T -> cstring
}.
Arguments type_of T {ValueType}.

(** An integer assigned to a [std::string] is converted to one [char]. *)
Definition char_of_int (v : Z) : cstring := [ascii_of_N (Z.to_N (v mod 256))].

Definition vt_string : ValueType cstring :=
  {| type_of := t_string; as_pattern := fun s => s |}.
Definition vt_char : ValueType ascii :=
  {| type_of := t_char; as_pattern := fun c => [c] |}.
Definition vt_uchar : ValueType Z :=
  {| type_of := t_uchar; as_pattern := char_of_int |}.
Definition vt_bool : ValueType bool :=
  {| type_of := t_bool; as_pattern := fun b : bool => char_of_int (if b then 1 else 0) |}.
Definition vt_int : ValueType Z :=
  {| type_of := t_int; as_pattern := char_of_int |}.
Definition vt_long : ValueType Z :=
  {| type_of := t_long; as_pattern := char_of_int |}.
Definition vt_ulong : ValueType Z :=
  {| type_of := t_ulong; as_pattern := char_of_int |}.

(** What [computeAgg<T>] needs of [T]: [<] (and [>], its converse), [+],
    and the conversion of the literal [1]. *)
Class Numeric (T : Type) : Type := {
  num_ltb : T -> T -> bool;
  num_add : T -> T -> T;
  num_of_int : Z -> T
}.

Definition num_gtb {T : Type} {NT : Numeric T} (a b : T) : bool := num_ltb b a.

Definition num_int64 : Numeric Z :=
  {| num_ltb := Z.ltb;
     num_add := fun a b => wrap_s64 (a + b);
     num_of_int := wrap_s64 |}.
Definition num_uint64 : Numeric Z :=
  {| num_ltb := Z.ltb;
     num_add := fun a b => wrap_u64 (a + b);
     num_of_int := wrap_u64 |}.
(** Conversion of an [int] to [double]; every [int] is represented exactly. *)
Definition double_of_int (v : Z) : float :=
  if v <? 0
  then PrimFloat.opp (PrimFloat.of_uint63 (Uint63.of_Z (- v)))
  else PrimFloat.of_uint63 (Uint63.of_Z v).

Definition num_double : Numeric float :=
  {| num_ltb := PrimFloat.ltb;
     num_add := PrimFloat.add;
     num_of_int := double_of_int |}.

(** ** namespace Tables *)

Module Tables.

(** [enum TablesErrCodes]. *)
Definition EmptySchema : Z := 1.
Definition BadColInfoFormat : Z := 2.
Definition BadColInfoConversion : Z := 3.
Definition UnsupportedSkyDataType : Z := 4.
Definition UnsupportedAggDataType : Z := 5.
Definition UnknownSkyDataType : Z := 6.
Definition RequestedColIndexOOB : Z := 7.
Definition PredicateComparisonNotDefined : Z := 8.
Definition PredicateRegexPatternNotSet : Z := 9.
Definition OpNotRecognized : Z := 10.
Definition OpNotImplemented : Z := 11.
Definition BuildSkyIndexDecodeBlsErr : Z := 12.
Definition BuildSkyIndexExtractFbErr : Z := 13.
Definition BuildSkyIndexUnsupportedColType : Z := 14.
Definition BuildSkyIndexColTypeNotImplemented : Z := 15.
Definition BuildSkyIndexUnsupportedNumCols : Z := 16.
Definition BuildSkyIndexUnsupportedAggCol : Z := 17.
Definition BuildSkyIndexKeyCreationFailed : Z := 18.
Definition RowIndexOOB : Z := 19.

(** [enum SkyDataType]. *)
Definition SDT_INT8 : Z := 1.
Definition SDT_INT16 : Z := 2.
Definition SDT_INT32 : Z := 3.
Definition SDT_INT64 : Z := 4.
Definition SDT_UINT8 : Z := 5.
Definition SDT_UINT16 : Z := 6.
Definition SDT_UINT32 : Z := 7.
Definition SDT_UINT64 : Z := 8.
Definition SDT_CHAR : Z := 9.
Definition SDT_UCHAR : Z := 10.
Definition SDT_BOOL : Z := 11.
Definition SDT_FLOAT : Z := 12.
Definition SDT_DOUBLE : Z := 13.
Definition SDT_DATE : Z := 14.
Definition SDT_STRING : Z := 15.
Definition SDT_FIRST : Z := SDT_INT8.
Definition SDT_LAST : Z := SDT_STRING.

(** [enum SkyOpType]. *)
Definition SOT_lt : Z := 1.
Definition SOT_gt : Z := 2.
Definition SOT_eq : Z := 3.
Definition SOT_ne : Z := 4.
Definition SOT_leq : Z := 5.
Definition SOT_geq : Z := 6.
Definition SOT_add : Z := 7.
Definition SOT_sub : Z := 8.
Definition SOT_mul : Z := 9.
Definition SOT_div : Z := 10.
Definition SOT_min : Z := 11.
Definition SOT_max : Z := 12.
Definition SOT_sum : Z := 13.
Definition SOT_cnt : Z := 14.
Definition SOT_like : Z := 15.
Definition SOT_in : Z := 16.
Definition SOT_not_in : Z := 17.
Definition SOT_between : Z := 18.
Definition SOT_logical_or : Z := 19.
Definition SOT_logical_and : Z := 20.
Definition SOT_logical_not : Z := 21.
Definition SOT_logical_nor : Z := 22.
Definition SOT_logical_xor : Z := 23.
Definition SOT_logical_nand : Z := 24.
Definition SOT_bitwise_and : Z := 25.
Definition SOT_bitwise_or : Z := 26.
Definition SOT_FIRST : Z := SOT_lt.
Definition SOT_LAST : Z := SOT_bitwise_or.

(** [enum AggColIdx]. *)
Definition AGG_COL_MIN : Z := -1.
Definition AGG_COL_MAX : Z := -2.
Definition AGG_COL_SUM : Z := -3.
Definition AGG_COL_CNT : Z := -4.

Definition PROJECT_DEFAULT : cstring := lit "*".
Definition REGEX_DEFAULT_PATTERN : cstring := lit "/.^/".

(** A [case] label list of a [switch]. *)
Definition one_of (x : Z) (labels : list Z) : bool :=
  existsb (Z.eqb x) labels.

(** *** Index keys *)

Definition u64tostr (value : Z) : cstring :=
  Std.pad_left 20 "0" (Std.utoa value).

(** The cell [*out] is passed in and returned next to the result. *)
Definition strtou64 (value : cstring) (out : Z) : outcome (Z * Z) :=
  match Boost.lexical_cast_u64 value with
  | Ok v => Ok (0, v)
  | Thrown bad_lexical_cast => Ok (- EIO, out)
  | Thrown e => Thrown e
  | AssertionFailed => AssertionFailed
  | Failed c => Failed c
  | Undefined => Undefined
  end.

(** *** Predicates *)

Record PredicateValue (T : Type) : Type := { val : T }.
Arguments val {T} p.

(** [regx] is [None] as long as the pointer member was never assigned. *)
Record TypedPredicate (T : Type) : Type := {
  col_idx : Z;
  col_type : Z;
  op_type : Z;
  is_global_agg : bool;
  regx : option RE2;
  value : PredicateValue T
}.
Arguments col_idx {T} t.
Arguments col_type {T} t.
Arguments op_type {T} t.
Arguments is_global_agg {T} t.
Arguments regx {T} t.
Arguments value {T} t.

Definition Val {T : Type} (p : TypedPredicate T) : T := val (value p).

(** The [switch] of the constructor: is the operator valid for the column
    type and the value type? *)
Definition verify_op (T : cpp_type) (col_type op_type : Z) : outcome unit :=
  if one_of op_type
       [SOT_lt; SOT_gt; SOT_eq; SOT_ne; SOT_leq; SOT_geq; SOT_add; SOT_sub;
        SOT_mul; SOT_div; SOT_min; SOT_max; SOT_sum; SOT_cnt]
  then
    assert (is_arithmetic T
            && one_of col_type
                 [SDT_INT8; SDT_INT16; SDT_INT32; SDT_INT64; SDT_UINT8;
                  SDT_UINT16; SDT_UINT32; SDT_UINT64; SDT_BOOL; SDT_CHAR;
                  SDT_UCHAR; SDT_FLOAT; SDT_DOUBLE])
  else if op_type =? SOT_like then
    assert ((is_same T t_string || is_same T t_uchar || is_same T t_char)
            && one_of col_type [SDT_STRING; SDT_CHAR; SDT_UCHAR])
  else if one_of op_type [SOT_in; SOT_not_in] then
    assert! is_same T (t_vector T) ;;
    assert (OpNotImplemented =? 0)
  else if op_type =? SOT_between then
    assert (OpNotImplemented =? 0)
  else if one_of op_type
            [SOT_logical_or; SOT_logical_and; SOT_logical_not;
             SOT_logical_nor; SOT_logical_xor; SOT_logical_nand]
  then
    assert! is_integral T ;;
    assert (one_of col_type
              [SDT_INT8; SDT_INT16; SDT_INT32; SDT_INT64; SDT_UINT8;
               SDT_UINT16; SDT_UINT32; SDT_UINT64; SDT_BOOL; SDT_CHAR;
               SDT_UCHAR])
  else if one_of op_type [SOT_bitwise_and; SOT_bitwise_or] then
    assert! is_integral T ;;
    assert (is_unsigned T)
  else
    assert (OpNotRecognized =? 0).

(** [TypedPredicate(int idx, int type, int op, const T& val)]. *)
Definition TypedPredicate_new {T : Type} {VT : ValueType T} {RB : RegexBackend}
    (idx type op : Z) (v : T) : outcome (TypedPredicate T) :=
  let p := {| col_idx := idx;
              col_type := type;
              op_type := op;
              is_global_agg :=
                (op =? SOT_min) || (op =? SOT_max) ||
                (op =? SOT_sum) || (op =? SOT_cnt);
              regx := None;
              value := {| val := v |} |} in
  _ <- verify_op (type_of T) (col_type p) (op_type p) ;;
  if op_type p =? SOT_like then
    let pattern := as_pattern (Val p) in
    let r := RE2_new pattern in
    assert! re_ok r ;;
    Ok {| col_idx := col_idx p;
          col_type := col_type p;
          op_type := op_type p;
          is_global_agg := is_global_agg p;
          regx := Some r;
          value := value p |}
  else Ok p.

(** [TypedPredicate(const TypedPredicate& p)]: the new regex is built from
    [p.regx->pattern()]; reading through a pointer that was never
    assigned is undefined behaviour. *)
Definition TypedPredicate_copy {T : Type} {RB : RegexBackend}
    (p : TypedPredicate T) : outcome (TypedPredicate T) :=
  match regx p with
  | None => Undefined
  | Some r =>
      Ok {| col_idx := col_idx p;
            col_type := col_type p;
            op_type := op_type p;
            is_global_agg := is_global_agg p;
            regx := Some (RE2_new (re_pattern r));
            value := {| val := val (value p) |} |}
  end.

Definition updateAgg {T : Type} (p : TypedPredicate T) (newval : T)
  : TypedPredicate T :=
  {| col_idx := col_idx p;
     col_type := col_type p;
     op_type := op_type p;
     is_global_agg := is_global_agg p;
     regx := regx p;
     value := {| val := newval |} |}.

(** The interface of [PredicateBase], as [TypedPredicate] overrides it. *)
Definition colIdx {T : Type} (p : TypedPredicate T) : Z := col_idx p.
Definition colType {T : Type} (p : TypedPredicate T) : Z := col_type p.
Definition opType {T : Type} (p : TypedPredicate T) : Z := op_type p.
Definition isGlobalAgg {T : Type} (p : TypedPredicate T) : bool :=
  is_global_agg p.
Definition getRegex {T : Type} (p : TypedPredicate T) : option RE2 := regx p.

(** *** Column descriptors *)

Record col_info : Type := {
  idx : Z;
  type : Z;
  is_key : bool;
  nullable : bool;
  name : cstring
}.

Definition schema_vec : Type := list col_info.

(** [col_info(int i, int t, bool key, bool nulls, std::string n)]. *)
Definition col_info_new (i t : Z) (key nulls : bool) (n : cstring)
  : outcome col_info :=
  let c := {| idx := i; type := t; is_key := key; nullable := nulls;
              name := n |} in
  assert! (SDT_FIRST <=? type c) && (type c <=? SDT_LAST) ;;
  Ok c.

(** [col_info(std::string i, std::string t, std::string key,
              std::string nulls, std::string n)]. *)
Definition col_info_of_strings (i t key nulls n : cstring)
  : outcome col_info :=
  iv <- Std.stoi (Std.c_str i) ;;
  tv <- Std.stoi (Std.c_str t) ;;
  let c := {| idx := iv;
              type := tv;
              is_key := Std.char_eqb (Std.front key) "1";
              nullable := Std.char_eqb (Std.front nulls) "1";
              name := n |} in
  assert! (SDT_FIRST <=? type c) && (type c <=? SDT_LAST) ;;
  Ok c.

Definition toString (c : col_info) : cstring :=
  lit "   " ++
  Std.to_string (idx c) ++ lit " " ++
  Std.to_string (type c) ++ lit " " ++
  Std.to_string_bool (is_key c) ++ lit " " ++
  Std.to_string_bool (nullable c) ++ lit " " ++
  name c ++ lit "   ".

Definition compareName (c : col_info) (colname : cstring) : bool :=
  if Std.str_eqb colname (name c) then true else false.

Definition compareColInfo (l r : col_info) : bool :=
  (idx l =? idx r) &&
  (type l =? type r) &&
  Bool.eqb (is_key l) (is_key r) &&
  Bool.eqb (nullable l) (nullable r) &&
  Std.str_eqb (name l) (name r).

(** *** The lineitem test schema

    A backslash at the end of a source line splices the next line into
    the literal, so each literal carries the four blanks that indent the
    line after it. *)

Definition nl : cstring := ["010"%char].

Definition lineitem_test_schema_string : cstring :=
  lit " " ++
  lit "    0 " ++ Std.to_string SDT_INT64 ++ lit " 1 0 orderkey " ++ nl ++
  lit "    1 " ++ Std.to_string SDT_INT32 ++ lit " 0 1 partkey " ++ nl ++
  lit "    2 " ++ Std.to_string SDT_INT32 ++ lit " 0 1 suppkey " ++ nl ++
  lit "    3 " ++ Std.to_string SDT_INT64 ++ lit " 1 0 linenumber " ++ nl ++
  lit "    4 " ++ Std.to_string SDT_FLOAT ++ lit " 0 1 quantity " ++ nl ++
  lit "    5 " ++ Std.to_string SDT_DOUBLE ++ lit " 0 1 extendedprice " ++ nl ++
  lit "    6 " ++ Std.to_string SDT_FLOAT ++ lit " 0 1 discount " ++ nl ++
  lit "    7 " ++ Std.to_string SDT_DOUBLE ++ lit " 0 1 tax " ++ nl ++
  lit "    8 " ++ Std.to_string SDT_CHAR ++ lit " 0 1 returnflag " ++ nl ++
  lit "    9 " ++ Std.to_string SDT_CHAR ++ lit " 0 1 linestatus " ++ nl ++
  lit "    10 " ++ Std.to_string SDT_DATE ++ lit " 0 1 shipdate " ++ nl ++
  lit "    11 " ++ Std.to_string SDT_DATE ++ lit " 0 1 commitdate " ++ nl ++
  lit "    12 " ++ Std.to_string SDT_DATE ++ lit " 0 1 receipdate " ++ nl ++
  lit "    13 " ++ Std.to_string SDT_STRING ++ lit " 0 1 shipinstruct " ++ nl ++
  lit "    14 " ++ Std.to_string SDT_STRING ++ lit " 0 1 shipmode " ++ nl ++
  lit "    15 " ++ Std.to_string SDT_STRING ++ lit " 0 1 comment " ++ nl ++
  lit "    ".

Definition lineitem_test_project_schema_string : cstring :=
  lit " " ++
  lit "    0 " ++ Std.to_string SDT_INT64 ++ lit " 1 0 orderkey " ++ nl ++
  lit "    1 " ++ Std.to_string SDT_INT32 ++ lit " 0 1 partkey " ++ nl ++
  lit "    3 " ++ Std.to_string SDT_INT64 ++ lit " 1 0 linenumber " ++ nl ++
  lit "    4 " ++ Std.to_string SDT_FLOAT ++ lit " 0 1 quantity " ++ nl ++
  lit "    5 " ++ Std.to_string SDT_DOUBLE ++ lit " 0 1 extendedprice " ++ nl ++
  lit "    ".

(** *** Schemas from and to text

    [schemaFromString] and [schemaFromColNames] are declared in the header
    and defined in another translation unit. *)

(** Modelled from the spec: the split of a piece of text at a separator
    character (the lines of a schema string, the names of a projection);
    the body that does it is not in the header. *)
Fixpoint split_on (sep : ascii) (s cur : cstring) : list cstring :=
  match s with
  | [] => [rev cur]
  | c :: r =>
      if Std.char_eqb c sep then rev cur :: split_on sep r []
      else split_on sep r (c :: cur)
  end.

(** Modelled from the spec: the white-space delimited fields of one schema
    line ("fields in fixed order idx type is_key nullable name;
    whitespace-delimited"); the body that splits a line is not in the
    header. *)
Fixpoint fields_from (s cur : cstring) : list cstring :=
  match s with
  | [] => match cur with [] => [] | _ => [rev cur] end
  | c :: r =>
      if Std.isspace c then
        match cur with
        | [] => fields_from r []
        | _ => rev cur :: fields_from r []
        end
      else fields_from r (c :: cur)
  end.

Definition fields (line : cstring) : list cstring := fields_from line [].

(** Modelled from the spec: a column descriptor from the fields of its
    line, through the five-string constructor; any other number of fields
    is a malformed line ([BadColInfoFormat]). *)
Definition col_info_from_fields (fs : list cstring) : outcome col_info :=
  match fs with
  | [i; t; key; nulls; n] => col_info_of_strings i t key nulls n
  | _ => Failed BadColInfoFormat
  end.

Definition col_info_from_line (line : cstring) : outcome col_info :=
  col_info_from_fields (fields line).

Definition numeric (s : cstring) : bool :=
  match s with
  | [] => false
  | _ => forallb Std.isdigit s
  end.

(** Modelled from the spec: [parse_schema], one column per line; it
    "fails with BadColInfoFormat on malformed lines, BadColInfoConversion
    on non-numeric idx/type/flags, UnsupportedSkyDataType if the type tag
    is outside the valid range".  A line without any field describes no
    column. *)
Definition parse_line (line : cstring) : outcome (option col_info) :=
  match fields line with
  | [] => Ok None
  | [i; t; key; nulls; n] =>
      if numeric key && numeric nulls then
        match col_info_of_strings i t key nulls n with
        | Ok c => Ok (Some c)
        | Thrown _ => Failed BadColInfoConversion
        | AssertionFailed => Failed UnsupportedSkyDataType
        | Failed e => Failed e
        | Undefined => Undefined
        end
      else Failed BadColInfoConversion
  | _ => Failed BadColInfoFormat
  end.

Fixpoint parse_lines (lines : list cstring) (schema : schema_vec)
  : outcome schema_vec :=
  match lines with
  | [] => Ok schema
  | l :: rest =>
      c <- parse_line l ;;
      match c with
      | Some ci => parse_lines rest (schema ++ [ci])
      | None => parse_lines rest schema
      end
  end.

Definition schemaFromString (schema_string : cstring) : outcome schema_vec :=
  parse_lines (split_on "010" schema_string []) [].

(** Modelled from the spec: [project_schema]; "for [*], returns current
    unchanged; otherwise returns the subsequence of current whose names
    match, in the order named; an unmatched name fails with
    RequestedColIndexOOB".  The names come comma-delimited. *)
Fixpoint select_cols (current_schema : schema_vec) (names : list cstring)
  : outcome schema_vec :=
  match names with
  | [] => Ok []
  | n :: rest =>
      match find (fun c => compareName c n) current_schema with
      | Some c => cs <- select_cols current_schema rest ;; Ok (c :: cs)
      | None => Failed RequestedColIndexOOB
      end
  end.

Definition schemaFromColNames (current_schema : schema_vec)
    (project_col_names : cstring) : outcome schema_vec :=
  if Std.str_eqb project_col_names PROJECT_DEFAULT then Ok current_schema
  else select_cols current_schema (split_on "," project_col_names []).

(** *** Aggregates

    The cases of the [switch] have no [break]: when the test of
    [SOT_min] fails control runs on into the case of [SOT_max], and from
    there into [SOT_sum].  The assertion of the [default] case tests a
    non-zero enumerator. *)
Definition computeAgg {T : Type} {NT : Numeric T} (v oldval : T) (op : Z)
  : outcome T :=
  let case_cnt := Ok (num_add oldval (num_of_int 1)) in
  let case_sum := Ok (num_add oldval v) in
  let case_max := if num_gtb v oldval then Ok v else case_sum in
  let case_min := if num_ltb v oldval then Ok v else case_max in
  if op =? SOT_min then case_min
  else if op =? SOT_max then case_max
  else if op =? SOT_sum then case_sum
  else if op =? SOT_cnt then case_cnt
  else assert! negb (OpNotImplemented =? 0) ;; Ok oldval.

(** The running value of an aggregate over the values of a column, in row
    order. *)
Fixpoint foldAgg {T : Type} {NT : Numeric T} (op : Z) (vals : list T) (acc : T)
  : outcome T :=
  match vals with
  | [] => Ok acc
  | v :: rest => acc' <- computeAgg v acc op ;; foldAgg op rest acc'
  end.

End Tables.

(** ** Vocabulary of the statements *)

(** The [n] low decimal digits of [v], most significant first. *)
Fixpoint fixed_decimal (n : nat) (v : Z) : cstring :=
  match n with
  | O => []
  | S k => fixed_decimal k (v / 10) ++ [Std.digit_char (v mod 10)]
  end.

(** A non-empty run of characters without white space. *)
Definition word (w : cstring) : Prop :=
  w <> [] /\ forallb (fun c => negb (Std.isspace c)) w = true.

(** A valid column descriptor: its [int] members hold [int] values and its
    type tag is one of [SkyDataType]. *)
Definition valid_col_info (c : Tables.col_info) : Prop :=
  is_int (Tables.idx c) /\
  Tables.SDT_FIRST <= Tables.type c <= Tables.SDT_LAST.

(** A descriptor that one of the two constructors returned. *)
Inductive constructed : Tables.col_info -> Prop :=
| constructed_typed (i t : Z) (key nulls : bool) (n : cstring) c :
    Tables.col_info_new i t key nulls n = Ok c -> constructed c
| constructed_of_strings (i t key nulls n : cstring) c :
    Tables.col_info_of_strings i t key nulls n = Ok c -> constructed c.

(** The value types and the column types the match operator accepts. *)
Definition textual_value_type (t : cpp_type) : Prop :=
  t = t_string \/ t = t_uchar \/ t = t_char.

Definition textual_column (ty : Z) : Prop :=
  ty = Tables.SDT_STRING \/ ty = Tables.SDT_CHAR \/ ty = Tables.SDT_UCHAR.

(** The conditions under which the constructor accepts the match operator. *)
Definition like_accepted {T : Type} {VT : ValueType T} {RB : RegexBackend}
    (ty : Z) (v : T) : bool :=
  (is_same (type_of T) t_string || is_same (type_of T) t_uchar
   || is_same (type_of T) t_char)
  && Tables.one_of ty [Tables.SDT_STRING; Tables.SDT_CHAR; Tables.SDT_UCHAR]
  && compiles (as_pattern v).

(** Two descriptors for examples: a column of the lineitem schema, and one
    whose name ends with a blank. *)
Definition quantity_col : Tables.col_info :=
  {| Tables.idx := 4; Tables.type := Tables.SDT_FLOAT;
     Tables.is_key := false; Tables.nullable := true;
     Tables.name := lit "quantity" |}.

Definition padded_name_col : Tables.col_info :=
  {| Tables.idx := 14; Tables.type := Tables.SDT_STRING;
     Tables.is_key := false; Tables.nullable := true;
     Tables.name := lit "shipmode " |}.

(** Text that does not go on with a decimal digit. *)
Definition no_leading_digit (s : cstring) : bool :=
  match s with
  | [] => true
  | c :: _ => negb (Std.isdigit c)
  end.

(** The groups of [case] labels in the constructor of [TypedPredicate], and
    the column types its assertions list. *)
Definition comparison_ops : list Z :=
  [Tables.SOT_lt; Tables.SOT_gt; Tables.SOT_eq; Tables.SOT_ne;
   Tables.SOT_leq; Tables.SOT_geq; Tables.SOT_add; Tables.SOT_sub;
   Tables.SOT_mul; Tables.SOT_div; Tables.SOT_min; Tables.SOT_max;
   Tables.SOT_sum; Tables.SOT_cnt].

Definition aggregate_ops : list Z :=
  [Tables.SOT_min; Tables.SOT_max; Tables.SOT_sum; Tables.SOT_cnt].

Definition logical_ops : list Z :=
  [Tables.SOT_logical_or; Tables.SOT_logical_and; Tables.SOT_logical_not;
   Tables.SOT_logical_nor; Tables.SOT_logical_xor; Tables.SOT_logical_nand].

Definition bitwise_ops : list Z :=
  [Tables.SOT_bitwise_and; Tables.SOT_bitwise_or].

Definition numeric_columns : list Z :=
  [Tables.SDT_INT8; Tables.SDT_INT16; Tables.SDT_INT32; Tables.SDT_INT64;
   Tables.SDT_UINT8; Tables.SDT_UINT16; Tables.SDT_UINT32;
   Tables.SDT_UINT64; Tables.SDT_BOOL; Tables.SDT_CHAR; Tables.SDT_UCHAR;
   Tables.SDT_FLOAT; Tables.SDT_DOUBLE].

Definition integral_columns : list Z :=
  [Tables.SDT_INT8; Tables.SDT_INT16; Tables.SDT_INT32; Tables.SDT_INT64;
   Tables.SDT_UINT8; Tables.SDT_UINT16; Tables.SDT_UINT32;
   Tables.SDT_UINT64; Tables.SDT_BOOL; Tables.SDT_CHAR; Tables.SDT_UCHAR].

Definition textual_columns : list Z :=
  [Tables.SDT_STRING; Tables.SDT_CHAR; Tables.SDT_UCHAR].

(** The combinations of value type, column type and operator that pass the
    [switch] of the constructor of [TypedPredicate]. *)
Definition accepted_combination (T : cpp_type) (ty op : Z) : Prop :=
  (In op comparison_ops /\ is_arithmetic T = true /\ In ty numeric_columns)
  \/ (op = Tables.SOT_like /\ textual_value_type T /\ textual_column ty)
  \/ (In op logical_ops /\ is_integral T = true /\ In ty integral_columns)
  \/ (In op bitwise_ops /\ is_integral T = true /\ is_unsigned T = true).

(** The sum of a column of integers. *)
Definition total (vals : list Z) : Z := fold_right Z.add 0 vals.

(** A backend for examples: a pattern compiles unless it is empty. *)
Definition nonempty_backend : RegexBackend :=
  {| compiles := fun p => match p with [] => false | _ => true end |}.

(* ================================================================== *)
(** * Part II: properties                                              *)
(* ================================================================== *)

Import Tables.

(** ** Characters and decimal digits *)

Lemma code_range (c : ascii) : 0 <= Std.code c < 256.
Proof.
  unfold Std.code.
  pose proof (N_ascii_bounded c) as Hb.
  lia.
Qed.

Lemma code_inj (a b : ascii) : Std.code a = Std.code b -> a = b.
Proof.
  unfold Std.code; intros H.
  apply N2Z.inj in H.
  rewrite <- (ascii_N_embedding a), <- (ascii_N_embedding b).
  now f_equal.
Qed.

Lemma char_eqb_eq (a b : ascii) : Std.char_eqb a b = true <-> a = b.
Proof.
  unfold Std.char_eqb; rewrite Z.eqb_eq; split.
  - apply code_inj.
  - now intros ->.
Qed.

Lemma str_eqb_eq (a b : cstring) : Std.str_eqb a b = true <-> a = b.
Proof.
  revert b; induction a as [|x a IH]; intros [|y b]; simpl;
    try (split; [discriminate | discriminate]); try tauto.
  rewrite andb_true_iff, char_eqb_eq, IH.
  split; [intros [-> ->]; reflexivity | intros H; inversion H; auto].
Qed.

Lemma code_digit_char (d : Z) :
  0 <= d < 10 -> Std.code (Std.digit_char d) = 48 + d.
Proof.
  intros H.
  assert (d = 0 \/ d = 1 \/ d = 2 \/ d = 3 \/ d = 4 \/
          d = 5 \/ d = 6 \/ d = 7 \/ d = 8 \/ d = 9) as Hd by lia.
  repeat (destruct Hd as [-> | Hd]; [reflexivity |]).
  subst; reflexivity.
Qed.

Lemma isdigit_digit_char (d : Z) :
  0 <= d < 10 -> Std.isdigit (Std.digit_char d) = true.
Proof.
  intros H; unfold Std.isdigit; rewrite (code_digit_char d H).
  apply andb_true_iff; split; apply Z.leb_le; lia.
Qed.

Lemma digit_val_digit_char (d : Z) :
  0 <= d < 10 -> Std.digit_val (Std.digit_char d) = d.
Proof.
  intros H; unfold Std.digit_val; rewrite (code_digit_char d H); lia.
Qed.

Lemma mod10_range (v : Z) : 0 <= v mod 10 < 10.
Proof. apply Z.mod_pos_bound; lia. Qed.

(** ** Fixed-width decimal renderings *)

Lemma fixed_decimal_length (n : nat) (v : Z) :
  List.length (fixed_decimal n v) = n.
Proof.
  revert v; induction n as [|n IH]; intros v; simpl; [reflexivity|].
  rewrite length_app, IH; simpl; lia.
Qed.

Lemma fixed_decimal_digits (n : nat) (v : Z) :
  forallb Std.isdigit (fixed_decimal n v) = true.
Proof.
  revert v; induction n as [|n IH]; intros v; simpl; [reflexivity|].
  rewrite forallb_app, IH; simpl.
  now rewrite isdigit_digit_char by apply mod10_range.
Qed.

Lemma fixed_decimal_zero (n : nat) :
  fixed_decimal n 0 = repeat "0"%char n.
Proof.
  induction n as [|n IH]; simpl; [reflexivity|].
  change (0 / 10) with 0; rewrite IH.
  change (Std.digit_char (0 mod 10)) with "0"%char.
  now rewrite repeat_cons.
Qed.

Lemma fixed_decimal_pad (m k : nat) (v : Z) :
  0 <= v < 10 ^ Z.of_nat k ->
  fixed_decimal (m + k) v = repeat "0"%char m ++ fixed_decimal k v.
Proof.
  revert v; induction k as [|k IH]; intros v Hv.
  - assert (v = 0) as -> by (simpl in Hv; lia).
    rewrite Nat.add_0_r, fixed_decimal_zero; simpl; now rewrite app_nil_r.
  - rewrite Nat.add_succ_r; simpl.
    rewrite IH, app_assoc; [reflexivity|].
    rewrite Nat2Z.inj_succ, Z.pow_succ_r in Hv by lia.
    split; [apply Z.div_pos; lia | apply Z.div_lt_upper_bound; lia].
Qed.

Lemma fixed_decimal_value (n : nat) (v acc : Z) :
  0 <= v < 10 ^ Z.of_nat n ->
  fold_left (fun a c => a * 10 + Std.digit_val c) (fixed_decimal n v) acc
  = acc * 10 ^ Z.of_nat n + v.
Proof.
  revert v; induction n as [|n IH]; intros v Hv.
  - simpl in *; lia.
  - rewrite Nat2Z.inj_succ, Z.pow_succ_r in * by lia.
    cbn [fixed_decimal]; rewrite fold_left_app; cbn [fold_left].
    rewrite IH.
    + rewrite digit_val_digit_char by apply mod10_range.
      pose proof (Z.div_mod v 10 ltac:(lia)) as Hdm.
      remember (v / 10) as q; remember (v mod 10) as r.
      rewrite Hdm; ring.
    + split; [apply Z.div_pos; lia | apply Z.div_lt_upper_bound; lia].
Qed.

(** ** The digit loop against the fixed-width rendering *)

Lemma div10_bounds (v p : Z) :
  0 <= v < 10 * p -> 0 <= v / 10 < p.
Proof.
  intros H; split; [apply Z.div_pos; lia | apply Z.div_lt_upper_bound; lia].
Qed.

(** With fuel for all its digits, the loop writes the [k] digits of [v] in
    front of [acc], where [k] is the number of digits of [v]. *)
Lemma utoa_loop_fixed (fuel : nat) :
  forall v acc,
    (1 <= fuel)%nat ->
    0 <= v < 10 ^ Z.of_nat fuel ->
    exists k : nat,
      (1 <= k <= fuel)%nat /\
      Std.utoa_loop fuel v acc = fixed_decimal k v ++ acc /\
      v < 10 ^ Z.of_nat k /\
      (k = 1%nat \/ 10 ^ Z.of_nat k <= 10 * v).
Proof.
  induction fuel as [|fuel IH]; intros v acc Hfuel Hv; [lia|].
  rewrite Nat2Z.inj_succ, Z.pow_succ_r in Hv by lia.
  pose proof (div10_bounds v _ Hv) as Hq.
  pose proof (Z.div_mod v 10 ltac:(lia)) as Hdm.
  pose proof (mod10_range v) as Hr.
  cbn [Std.utoa_loop].
  destruct (v / 10 =? 0) eqn:E.
  - apply Z.eqb_eq in E.
    exists 1%nat; repeat split; lia.
  - apply Z.eqb_neq in E.
    destruct fuel as [|fuel'].
    { change (10 ^ Z.of_nat 0) with 1 in Hq; lia. }
    destruct (IH (v / 10) (Std.digit_char (v mod 10) :: acc) ltac:(lia) Hq)
      as (k & Hk & Heq & Hub & Hlb).
    exists (S k); repeat split; try lia.
    + rewrite Heq; cbn [fixed_decimal]; now rewrite <- app_assoc.
    + rewrite Nat2Z.inj_succ, Z.pow_succ_r by lia; lia.
    + right. rewrite Nat2Z.inj_succ, Z.pow_succ_r by lia.
      destruct Hlb as [-> | Hlb]; [change (10 ^ Z.of_nat 1) with 10|]; lia.
Qed.

Lemma utoa_fuel_enough (v : Z) :
  0 <= v -> v < 10 ^ Z.of_nat (S (Z.to_nat (Z.log2 v))).
Proof.
  intros Hv.
  pose proof (Z.log2_nonneg v) as Hl.
  rewrite Nat2Z.inj_succ, Z2Nat.id by lia.
  destruct (Z.eq_dec v 0) as [-> | Hnz]; [reflexivity|].
  pose proof (Z.log2_spec v ltac:(lia)) as [_ Hub].
  eapply Z.lt_le_trans; [exact Hub|].
  apply Z.pow_le_mono_l; lia.
Qed.

Lemma utoa_fixed (v : Z) :
  0 <= v ->
  exists k : nat,
    (1 <= k)%nat /\
    Std.utoa v = fixed_decimal k v /\
    v < 10 ^ Z.of_nat k /\
    (k = 1%nat \/ 10 ^ Z.of_nat k <= 10 * v).
Proof.
  intros Hv; unfold Std.utoa.
  destruct (utoa_loop_fixed (S (Z.to_nat (Z.log2 v))) v [] ltac:(lia)
              (conj Hv (utoa_fuel_enough v Hv)))
    as (k & Hk & Heq & Hub & Hlb).
  exists k; rewrite Heq, app_nil_r; repeat split; tauto || lia.
Qed.

Lemma utoa_digits (v : Z) :
  0 <= v ->
  Std.utoa v <> [] /\
  forallb Std.isdigit (Std.utoa v) = true /\
  Std.digits_value (Std.utoa v) = v.
Proof.
  intros Hv; destruct (utoa_fixed v Hv) as (k & Hk & -> & Hub & _).
  repeat split.
  - intros E; apply (f_equal (@List.length ascii)) in E.
    rewrite fixed_decimal_length in E; simpl in E; lia.
  - apply fixed_decimal_digits.
  - unfold Std.digits_value; rewrite fixed_decimal_value by lia; lia.
Qed.

Lemma utoa_u64_width (v : Z) :
  is_uint64 v -> (List.length (Std.utoa v) <= 20)%nat.
Proof.
  intros [Hlo Hhi]; destruct (utoa_fixed v Hlo) as (k & Hk & -> & _ & Hlb).
  rewrite fixed_decimal_length.
  destruct Hlb as [-> | Hlb]; [lia|].
  destruct (le_lt_dec k 20) as [|Hbig]; [assumption|exfalso].
  assert (10 ^ 21 <= 10 ^ Z.of_nat k) by (apply Z.pow_le_mono_r; lia).
  unfold UINT64_MAX in Hhi.
  assert (10 * (2 ^ 64 - 1) < 10 ^ 21) by reflexivity.
  lia.
Qed.

(** The key of a 64-bit value is its 20-digit rendering. *)
Lemma u64tostr_fixed (v : Z) :
  is_uint64 v -> u64tostr v = fixed_decimal 20 v.
Proof.
  intros Hv; pose proof (utoa_u64_width v Hv) as Hw.
  destruct Hv as [Hlo Hhi].
  unfold u64tostr, Std.pad_left.
  destruct (utoa_fixed v Hlo) as (k & Hk & Heq & Hub & _).
  rewrite Heq in *; rewrite fixed_decimal_length in *.
  rewrite <- fixed_decimal_pad by lia.
  f_equal; lia.
Qed.

(** ** Lexicographic order *)

Lemma str_ltb_app_same (p a b : cstring) :
  Std.str_ltb (p ++ a) (p ++ b) = Std.str_ltb a b.
Proof.
  induction p as [|x p IH]; simpl; [reflexivity|].
  now rewrite Z.ltb_irrefl.
Qed.

Lemma str_ltb_app_lt (a b x y : cstring) :
  List.length a = List.length b ->
  Std.str_ltb a b = true ->
  Std.str_ltb (a ++ x) (b ++ y) = true.
Proof.
  revert b; induction a as [|c a IH]; intros [|d b] Hlen Hlt;
    simpl in *; try discriminate.
  destruct (Std.code c <? Std.code d); [reflexivity|].
  destruct (Std.code d <? Std.code c); [discriminate|].
  apply IH; [lia | assumption].
Qed.

Lemma fixed_decimal_lt (n : nat) :
  forall v1 v2,
    0 <= v1 < v2 -> v2 < 10 ^ Z.of_nat n ->
    Std.str_ltb (fixed_decimal n v1) (fixed_decimal n v2) = true.
Proof.
  induction n as [|n IH]; intros v1 v2 H12 Hub.
  - change (10 ^ Z.of_nat 0) with 1 in Hub; lia.
  - rewrite Nat2Z.inj_succ, Z.pow_succ_r in Hub by lia.
    pose proof (Z.div_mod v1 10 ltac:(lia)) as Hd1.
    pose proof (Z.div_mod v2 10 ltac:(lia)) as Hd2.
    pose proof (mod10_range v1) as Hr1.
    pose proof (mod10_range v2) as Hr2.
    pose proof (div10_bounds v1 (10 ^ Z.of_nat n) ltac:(lia)) as Hq1.
    pose proof (div10_bounds v2 (10 ^ Z.of_nat n) ltac:(lia)) as Hq2.
    cbn [fixed_decimal].
    destruct (Z.eq_dec (v1 / 10) (v2 / 10)) as [E | NE].
    + rewrite E, str_ltb_app_same; cbn [Std.str_ltb].
      rewrite !code_digit_char by assumption.
      replace (48 + v1 mod 10 <? 48 + v2 mod 10) with true; [reflexivity|].
      symmetry; apply Z.ltb_lt; lia.
    + apply str_ltb_app_lt.
      * now rewrite !fixed_decimal_length.
      * apply IH; lia.
Qed.

(** C3. For unsigned 64-bit values [v1 < v2] the key [u64tostr v1] is
    lexicographically below [u64tostr v2]; and the key of every unsigned
    64-bit value has exactly 20 characters: the decimal digits of the
    value with characters '0' in front. *)
Theorem u64tostr_order_preserving (v1 v2 : Z) :
  is_uint64 v1 -> is_uint64 v2 ->
  (v1 < v2 -> Std.str_ltb (u64tostr v1) (u64tostr v2) = true) /\
  List.length (u64tostr v1) = 20%nat /\
  u64tostr v1
  = repeat "0"%char (20 - List.length (Std.utoa v1)) ++ Std.utoa v1 /\
  forallb Std.isdigit (Std.utoa v1) = true /\
  Std.digits_value (Std.utoa v1) = v1.
Proof.
  intros H1 H2.
  pose proof (utoa_digits v1 (proj1 H1)) as (_ & Hdig & Hval).
  repeat split; try assumption.
  - intros Hlt; rewrite !u64tostr_fixed by assumption.
    apply fixed_decimal_lt; [destruct H1; lia|].
    destruct H2 as [_ H2]; unfold UINT64_MAX in H2.
    assert (2 ^ 64 - 1 < 10 ^ Z.of_nat 20) by reflexivity; lia.
  - rewrite u64tostr_fixed by assumption; apply fixed_decimal_length.
Qed.

Lemma u64tostr_order_preserving_witness :
  Std.str_ltb (u64tostr 99) (u64tostr 100) = true /\
  List.length (u64tostr 99) = 20%nat.
Proof.
  assert (is_uint64 99) as H1 by (unfold is_uint64, UINT64_MAX; lia).
  assert (is_uint64 100) as H2 by (unfold is_uint64, UINT64_MAX; lia).
  destruct (u64tostr_order_preserving 99 100 H1 H2) as (Hlt & Hlen & _).
  split; [apply Hlt; lia | exact Hlen].
Defined.

(** ** Reading a key back *)

Lemma split_sign_digits (s : cstring) :
  forallb Std.isdigit s = true -> Std.split_sign s = (false, s).
Proof.
  destruct s as [|c r]; simpl; [reflexivity|].
  intros H; apply andb_true_iff in H; destruct H as [Hc _].
  unfold Std.isdigit in Hc; apply andb_true_iff in Hc.
  destruct Hc as [Hlo Hhi]; apply Z.leb_le in Hlo, Hhi.
  unfold Std.char_eqb.
  change (Std.code "-") with 45; change (Std.code "+") with 43.
  destruct (Z.eqb_spec (Std.code c) 45); [lia|].
  destruct (Z.eqb_spec (Std.code c) 43); [lia|reflexivity].
Qed.

Lemma lexical_cast_u64_digits (s : cstring) :
  s <> [] -> forallb Std.isdigit s = true ->
  Std.digits_value s <= UINT64_MAX ->
  Boost.lexical_cast_u64 s = Ok (Std.digits_value s).
Proof.
  intros Hne Hdig Hmax; unfold Boost.lexical_cast_u64.
  rewrite split_sign_digits by assumption.
  destruct s as [|c r]; [congruence|].
  rewrite Hdig. apply Z.leb_le in Hmax; now rewrite Hmax.
Qed.

Lemma lexical_cast_u64_u64tostr (v : Z) :
  is_uint64 v -> Boost.lexical_cast_u64 (u64tostr v) = Ok v.
Proof.
  intros Hv; rewrite u64tostr_fixed by assumption.
  assert (Std.digits_value (fixed_decimal 20 v) = v) as Hval.
  { unfold Std.digits_value; rewrite fixed_decimal_value; [lia|].
    destruct Hv as [Hlo Hhi]; unfold UINT64_MAX in Hhi.
    assert (2 ^ 64 - 1 < 10 ^ Z.of_nat 20) by reflexivity; lia. }
  rewrite lexical_cast_u64_digits; rewrite ?Hval; try reflexivity.
  - intros E; apply (f_equal (@List.length ascii)) in E.
    rewrite fixed_decimal_length in E; discriminate.
  - apply fixed_decimal_digits.
  - apply Hv.
Qed.

(** C4. For every unsigned 64-bit [v], [strtou64] on the key of [v]
    returns 0 and stores [v]; and there is a non-numeric string on which it
    returns a negative error code and leaves the output cell as it was. *)
Theorem strtou64_u64tostr (v out : Z) :
  is_uint64 v ->
  strtou64 (u64tostr v) out = Ok (0, v) /\
  exists s : cstring,
    forallb Std.isdigit s = false /\
    strtou64 s out = Ok (- EIO, out) /\ - EIO < 0.
Proof.
  intros Hv; split.
  - unfold strtou64; now rewrite lexical_cast_u64_u64tostr.
  - exists (lit "key"); repeat split.
Qed.

Lemma strtou64_u64tostr_witness :
  strtou64 (u64tostr 18446744073709551615) 7
  = Ok (0, 18446744073709551615).
Proof.
  assert (is_uint64 18446744073709551615) as H
    by (unfold is_uint64, UINT64_MAX; lia).
  exact (proj1 (strtou64_u64tostr 18446744073709551615 7 H)).
Defined.

(** ** Integers through [to_string] and [stoi] *)

Lemma isdigit_code (c : ascii) :
  Std.isdigit c = true <-> 48 <= Std.code c <= 57.
Proof.
  unfold Std.isdigit; rewrite andb_true_iff, !Z.leb_le; tauto.
Qed.

Lemma isdigit_not_space (c : ascii) :
  Std.isdigit c = true -> Std.isspace c = false.
Proof.
  rewrite isdigit_code; intros H; unfold Std.isspace.
  destruct (Z.eqb_spec (Std.code c) 32); [lia|].
  destruct (Z.leb_spec 9 (Std.code c)); [|reflexivity].
  destruct (Z.leb_spec (Std.code c) 13); [lia|reflexivity].
Qed.

Lemma digits_no_space (s : cstring) :
  forallb Std.isdigit s = true ->
  forallb (fun c => negb (Std.isspace c)) s = true.
Proof.
  induction s as [|c s IH]; simpl; [reflexivity|].
  rewrite !andb_true_iff; intros [Hc Hs].
  now rewrite (isdigit_not_space c Hc), IH.
Qed.

Lemma c_str_digits (s : cstring) :
  forallb Std.isdigit s = true -> Std.c_str s = s.
Proof.
  induction s as [|c s IH]; simpl; [reflexivity|].
  rewrite andb_true_iff; intros [Hc Hs].
  apply isdigit_code in Hc.
  destruct (Z.eqb_spec (Std.code c) 0); [lia|].
  now rewrite IH.
Qed.

Lemma skip_space_digits (s : cstring) :
  forallb Std.isdigit s = true -> Std.skip_space s = s.
Proof.
  destruct s as [|c s]; simpl; [reflexivity|].
  rewrite andb_true_iff; intros [Hc _].
  now rewrite (isdigit_not_space c Hc).
Qed.

Lemma take_digits_all (s : cstring) :
  forallb Std.isdigit s = true -> Std.take_digits s = s.
Proof.
  induction s as [|c s IH]; simpl; [reflexivity|].
  rewrite andb_true_iff; intros [Hc Hs].
  now rewrite Hc, IH.
Qed.

Lemma in_int_range (v : Z) :
  is_int v -> (INT_MIN <=? v) && (v <=? INT_MAX) = true.
Proof.
  intros [Hlo Hhi]; apply andb_true_iff; split; now apply Z.leb_le.
Qed.

Lemma stoi_digits (s : cstring) :
  s <> [] -> forallb Std.isdigit s = true ->
  is_int (Std.digits_value s) ->
  Std.stoi (Std.c_str s) = Ok (Std.digits_value s).
Proof.
  intros Hne Hdig Hint; unfold Std.stoi.
  rewrite c_str_digits, skip_space_digits, split_sign_digits by assumption.
  rewrite take_digits_all by assumption.
  destruct s as [|c r]; [congruence|].
  now rewrite in_int_range.
Qed.

Lemma stoi_minus_digits (s : cstring) :
  s <> [] -> forallb Std.isdigit s = true ->
  is_int (- Std.digits_value s) ->
  Std.stoi (Std.c_str ("-"%char :: s)) = Ok (- Std.digits_value s).
Proof.
  intros Hne Hdig Hint; unfold Std.stoi.
  cbn [Std.c_str]; change (Std.code "-" =? 0) with false; cbv iota.
  rewrite c_str_digits by assumption.
  cbn [Std.skip_space]; change (Std.isspace "-") with false; cbv iota.
  cbn [Std.split_sign]; change (Std.char_eqb "-" "-") with true; cbv iota.
  rewrite take_digits_all by assumption.
  destruct s as [|c r]; [congruence|].
  now rewrite in_int_range.
Qed.

(** Every [int] is read back from its decimal text. *)
Lemma stoi_to_string (v : Z) :
  is_int v -> Std.stoi (Std.c_str (Std.to_string v)) = Ok v.
Proof.
  intros Hint; unfold Std.to_string.
  destruct (Z.ltb_spec v 0) as [Hneg | Hpos].
  - destruct (utoa_digits (- v) ltac:(lia)) as (Hne & Hdig & Hval).
    rewrite stoi_minus_digits; rewrite ?Hval; try assumption.
    + f_equal; lia.
    + now replace (- - v) with v by lia.
  - destruct (utoa_digits v Hpos) as (Hne & Hdig & Hval).
    rewrite stoi_digits; rewrite ?Hval; try assumption; reflexivity.
Qed.

Lemma to_string_word (v : Z) : word (Std.to_string v).
Proof.
  unfold Std.to_string, word.
  destruct (Z.ltb_spec v 0) as [Hneg | Hpos].
  - destruct (utoa_digits (- v) ltac:(lia)) as (_ & Hdig & _).
    split; [discriminate|].
    cbn [forallb]; change (Std.isspace "-") with false.
    now rewrite digits_no_space.
  - destruct (utoa_digits v Hpos) as (Hne & Hdig & _).
    split; [assumption | now apply digits_no_space].
Qed.

Lemma to_string_bool_word (b : bool) : word (Std.to_string_bool b).
Proof. destruct b; split; (discriminate || reflexivity). Qed.

Lemma to_string_bool_front (b : bool) :
  Std.char_eqb (Std.front (Std.to_string_bool b)) "1" = b.
Proof. destruct b; reflexivity. Qed.

(** ** The fields of a schema line *)

Lemma fields_from_word (w s cur : cstring) :
  forallb (fun c => negb (Std.isspace c)) w = true ->
  fields_from (w ++ s) cur = fields_from s (rev w ++ cur).
Proof.
  revert cur; induction w as [|c w IH]; intros cur Hw; [reflexivity|].
  cbn [forallb] in Hw; apply andb_true_iff in Hw; destruct Hw as [Hc Hw].
  apply negb_true_iff in Hc.
  cbn [app fields_from rev]; rewrite Hc, IH by assumption.
  now rewrite <- app_assoc.
Qed.

Lemma fields_from_blank (sp : ascii) (s : cstring) :
  Std.isspace sp = true -> fields_from (sp :: s) [] = fields_from s [].
Proof. intros H; cbn [fields_from]; now rewrite H. Qed.

Lemma fields_word_blank (w : cstring) (sp : ascii) (s : cstring) :
  word w -> Std.isspace sp = true ->
  fields_from (w ++ sp :: s) [] = w :: fields_from s [].
Proof.
  intros [Hne Hw] Hsp.
  rewrite fields_from_word, app_nil_r by assumption.
  cbn [fields_from]; rewrite Hsp.
  destruct (rev w) as [|x r] eqn:E.
  - apply (f_equal (@rev ascii)) in E; rewrite rev_involutive in E.
    now subst w.
  - now rewrite <- E, rev_involutive.
Qed.

Lemma fields_toString (c : col_info) :
  word (name c) ->
  fields (toString c)
  = [Std.to_string (idx c); Std.to_string (type c);
     Std.to_string_bool (is_key c); Std.to_string_bool (nullable c);
     name c].
Proof.
  intros Hname; unfold fields, toString.
  cbn [lit list_ascii_of_string app].
  rewrite !fields_from_blank by reflexivity.
  rewrite !fields_word_blank;
    auto using to_string_word, to_string_bool_word.
Qed.

Lemma compareColInfo_refl (c : col_info) : compareColInfo c c = true.
Proof.
  unfold compareColInfo.
  rewrite !Z.eqb_refl, !eqb_reflx; simpl.
  now apply str_eqb_eq.
Qed.

(** ** Column descriptors *)

Lemma col_info_of_strings_toString (c : col_info) :
  valid_col_info c ->
  col_info_of_strings
    (Std.to_string (idx c)) (Std.to_string (type c))
    (Std.to_string_bool (is_key c)) (Std.to_string_bool (nullable c))
    (name c)
  = Ok c.
Proof.
  intros [Hidx Hty]; unfold col_info_of_strings.
  assert (is_int (type c)) as Hti.
  { unfold is_int, INT_MIN, INT_MAX, SDT_FIRST, SDT_LAST, SDT_INT8,
      SDT_STRING in *; lia. }
  rewrite !stoi_to_string by assumption; cbn [bind].
  rewrite !to_string_bool_front; cbn [type].
  replace ((SDT_FIRST <=? type c) && (type c <=? SDT_LAST)) with true.
  - destruct c; reflexivity.
  - symmetry; apply andb_true_iff; split; apply Z.leb_le; apply Hty.
Qed.

(** C5, as the code has it. For every valid column descriptor [c] whose
    name is not empty and holds no white space, the five fields of
    [toString c] give back, through the five-string constructor, a
    descriptor equal to [c] under [compareColInfo] (indeed [c] itself). *)
Theorem col_info_toString_roundtrip (c : col_info) :
  valid_col_info c -> word (name c) ->
  exists c',
    col_info_from_line (toString c) = Ok c' /\
    compareColInfo c' c = true /\ c' = c.
Proof.
  intros Hvalid Hname; exists c.
  unfold col_info_from_line; rewrite fields_toString by assumption.
  cbn [col_info_from_fields].
  rewrite col_info_of_strings_toString by assumption.
  auto using compareColInfo_refl.
Qed.

Lemma col_info_toString_roundtrip_witness :
  exists c',
    col_info_from_line (toString quantity_col) = Ok c' /\
    compareColInfo c' quantity_col = true /\ c' = quantity_col.
Proof.
  apply col_info_toString_roundtrip.
  - repeat split; vm_compute; discriminate.
  - split; [discriminate | reflexivity].
Defined.

(** C5 fails as stated: the text of a valid descriptor whose name ends with
    a blank has five fields, and the descriptor built from them has the
    name without the blank, so it is not equal to the first. *)
Lemma col_info_toString_roundtrip_counterexample :
  ~ (forall c : col_info,
       valid_col_info c ->
       exists c',
         col_info_from_line (toString c) = Ok c' /\
         compareColInfo c' c = true).
Proof.
  intros H.
  destruct (H padded_name_col) as (c' & Hc & Hcmp).
  - repeat split; vm_compute; discriminate.
  - vm_compute in Hc; injection Hc as <-.
    vm_compute in Hcmp; discriminate.
Qed.

Lemma in_type_range (t : Z) :
  (SDT_FIRST <=? t) && (t <=? SDT_LAST) = true <->
  SDT_INT8 <= t <= SDT_STRING.
Proof.
  rewrite andb_true_iff, !Z.leb_le; unfold SDT_FIRST, SDT_LAST; tauto.
Qed.

Lemma col_info_new_ok (i t : Z) (key nulls : bool) (n : cstring) c :
  col_info_new i t key nulls n = Ok c -> SDT_INT8 <= type c <= SDT_STRING.
Proof.
  unfold col_info_new; cbn [type].
  destruct ((SDT_FIRST <=? t) && (t <=? SDT_LAST)) eqn:E; simpl;
    [|discriminate].
  intros H; injection H as <-; now apply in_type_range.
Qed.

Lemma col_info_of_strings_ok (i t key nulls n : cstring) c :
  col_info_of_strings i t key nulls n = Ok c ->
  SDT_INT8 <= type c <= SDT_STRING.
Proof.
  unfold col_info_of_strings.
  destruct (Std.stoi (Std.c_str i)) as [iv| | | |]; simpl; try discriminate.
  destruct (Std.stoi (Std.c_str t)) as [tv| | | |]; simpl; try discriminate.
  destruct ((SDT_FIRST <=? tv) && (tv <=? SDT_LAST)) eqn:E; simpl;
    [|discriminate].
  intros H; injection H as <-; now apply in_type_range.
Qed.

(** C6. A descriptor returned by either constructor has a type tag from
    [SDT_INT8] to [SDT_STRING]; with a tag outside that range the typed
    constructor stops at its assertion, and the five-string constructor
    never returns a descriptor. *)
Theorem col_info_type_in_range
    (c : col_info) (i t : Z) (key nulls : bool) (n : cstring)
    (si st skey snulls sn : cstring) (tv : Z) :
  constructed c ->
  SDT_INT8 <= type c <= SDT_STRING /\
  (~ SDT_INT8 <= t <= SDT_STRING ->
   col_info_new i t key nulls n = AssertionFailed) /\
  (Std.stoi (Std.c_str st) = Ok tv -> ~ SDT_INT8 <= tv <= SDT_STRING ->
   succeeded (col_info_of_strings si st skey snulls sn) = false).
Proof.
  intros Hc; repeat split.
  - destruct Hc as [? ? ? ? ? ? H | ? ? ? ? ? ? H];
      [apply (col_info_new_ok _ _ _ _ _ _ H)
      |apply (col_info_of_strings_ok _ _ _ _ _ _ H)].
  - destruct Hc as [? ? ? ? ? ? H | ? ? ? ? ? ? H];
      [apply (col_info_new_ok _ _ _ _ _ _ H)
      |apply (col_info_of_strings_ok _ _ _ _ _ _ H)].
  - intros Hout; unfold col_info_new; cbn [type].
    destruct ((SDT_FIRST <=? t) && (t <=? SDT_LAST)) eqn:E; [|reflexivity].
    apply in_type_range in E; tauto.
  - intros Hst Hout; unfold col_info_of_strings; rewrite Hst.
    destruct (Std.stoi (Std.c_str si)) as [iv| | | |]; simpl; try reflexivity.
    destruct ((SDT_FIRST <=? tv) && (tv <=? SDT_LAST)) eqn:E; [|reflexivity].
    apply in_type_range in E; tauto.
Qed.

Lemma col_info_type_in_range_witness :
  SDT_INT8 <= type quantity_col <= SDT_STRING /\
  col_info_new 0 16 true false (lit "blob") = AssertionFailed /\
  succeeded
    (col_info_of_strings (lit "0") (lit "0") (lit "1") (lit "0")
       (lit "none")) = false.
Proof.
  assert (constructed quantity_col) as Hc.
  { apply (constructed_typed 4 SDT_FLOAT false true (lit "quantity")).
    reflexivity. }
  destruct (col_info_type_in_range quantity_col 0 16 true false (lit "blob")
              (lit "0") (lit "0") (lit "1") (lit "0") (lit "none") 0 Hc)
    as (Hrange & Htyped & Hstrings).
  split; [exact Hrange|split].
  - apply Htyped; unfold SDT_INT8, SDT_STRING; lia.
  - apply Hstrings; [reflexivity | unfold SDT_INT8, SDT_STRING; lia].
Defined.

(** C7. [compareColInfo l r] is true exactly when the five members agree. *)
Theorem compareColInfo_iff (l r : col_info) :
  compareColInfo l r = true <->
  idx l = idx r /\ type l = type r /\ is_key l = is_key r /\
  nullable l = nullable r /\ name l = name r.
Proof.
  unfold compareColInfo.
  rewrite !andb_true_iff, !Z.eqb_eq, !eqb_true_iff, str_eqb_eq.
  tauto.
Qed.

(** ** Typed predicates *)

Lemma is_same_eq (a b : cpp_type) : is_same a b = true <-> a = b.
Proof.
  revert b; induction a; intros []; simpl;
    try (split; [discriminate | discriminate]);
    try (split; [reflexivity | reflexivity]).
  rewrite IHa; split; [now intros -> | now intros [= ->]].
Qed.

Lemma textual_value_type_iff (t : cpp_type) :
  is_same t t_string || is_same t t_uchar || is_same t t_char = true <->
  textual_value_type t.
Proof.
  unfold textual_value_type; rewrite !orb_true_iff, !is_same_eq; tauto.
Qed.

Lemma textual_column_iff (ty : Z) :
  one_of ty [SDT_STRING; SDT_CHAR; SDT_UCHAR] = true <-> textual_column ty.
Proof.
  unfold textual_column, one_of; cbn [existsb].
  rewrite !orb_true_iff, !Z.eqb_eq; intuition discriminate.
Qed.

Section Predicates.

Context {T : Type} {VT : ValueType T} {RB : RegexBackend}.

Lemma like_accepted_iff (ty : Z) (v : T) :
  like_accepted ty v = true <->
  textual_value_type (type_of T) /\ textual_column ty /\
  compiles (as_pattern v) = true.
Proof.
  unfold like_accepted.
  rewrite !andb_true_iff, textual_value_type_iff, textual_column_iff; tauto.
Qed.

Lemma TypedPredicate_new_like (i ty : Z) (v : T) :
  TypedPredicate_new i ty SOT_like v
  = if like_accepted ty v
    then Ok {| col_idx := i; col_type := ty; op_type := SOT_like;
               is_global_agg := false;
               regx := Some {| re_pattern := as_pattern v; re_ok := true |};
               value := {| val := v |} |}
    else AssertionFailed.
Proof.
  unfold TypedPredicate_new, like_accepted, RE2_new, Val.
  cbn [col_idx col_type op_type is_global_agg value val re_ok].
  change (verify_op (type_of T) ty SOT_like)
    with (assert ((is_same (type_of T) t_string
                   || is_same (type_of T) t_uchar
                   || is_same (type_of T) t_char)
                  && one_of ty [SDT_STRING; SDT_CHAR; SDT_UCHAR])).
  destruct ((is_same (type_of T) t_string || is_same (type_of T) t_uchar
             || is_same (type_of T) t_char)
            && one_of ty [SDT_STRING; SDT_CHAR; SDT_UCHAR]);
    [|reflexivity].
  cbn [assert bind andb]; change (SOT_like =? SOT_like) with true; cbv iota.
  destruct (compiles (as_pattern v)); reflexivity.
Qed.

(** C8. With the match operator the constructor returns a predicate only
    when the value type is [std::string], [char] or [unsigned char], the
    column type is [SDT_STRING], [SDT_CHAR] or [SDT_UCHAR] and the pattern
    compiles; the predicate then holds the compiled pattern.  With any
    other combination the constructor stops at an assertion, so no
    predicate exists to be evaluated. *)
Theorem like_predicate_construction (i ty : Z) (v : T) :
  (forall p,
     TypedPredicate_new i ty SOT_like v = Ok p ->
     (textual_value_type (type_of T) /\ textual_column ty /\
      compiles (as_pattern v) = true) /\
     regx p = Some {| re_pattern := as_pattern v; re_ok := true |}) /\
  (~ (textual_value_type (type_of T) /\ textual_column ty /\
      compiles (as_pattern v) = true) ->
   TypedPredicate_new i ty SOT_like v = AssertionFailed).
Proof.
  rewrite TypedPredicate_new_like.
  pose proof (like_accepted_iff ty v) as Hiff.
  destruct (like_accepted ty v); split.
  - intros p [= <-]; split; [now apply Hiff | reflexivity].
  - intros H; exfalso; apply H; now apply Hiff.
  - discriminate.
  - reflexivity.
Qed.

(** A predicate built with another operator never had its regex assigned. *)
Lemma TypedPredicate_new_regx_unset (i ty op : Z) (v : T) p :
  TypedPredicate_new i ty op v = Ok p -> op <> SOT_like -> regx p = None.
Proof.
  unfold TypedPredicate_new.
  cbn [col_idx col_type op_type is_global_agg value val].
  destruct (verify_op (type_of T) ty op); cbn [bind]; try discriminate.
  intros H Hop; apply Z.eqb_neq in Hop; rewrite Hop in H.
  now injection H as <-.
Qed.

Lemma TypedPredicate_new_members (i ty op : Z) (v : T) p :
  TypedPredicate_new i ty op v = Ok p ->
  col_idx p = i /\ col_type p = ty /\ op_type p = op /\ Val p = v /\
  is_global_agg p = one_of op [SOT_min; SOT_max; SOT_sum; SOT_cnt].
Proof.
  unfold TypedPredicate_new, one_of.
  cbn [col_idx col_type op_type is_global_agg value val existsb].
  rewrite orb_false_r, !orb_assoc.
  destruct (verify_op (type_of T) ty op); cbn [bind]; try discriminate.
  destruct (op =? SOT_like).
  - destruct (re_ok _); cbn [assert bind]; [|discriminate].
    intros [= <-]; repeat split.
  - intros [= <-]; repeat split.
Qed.

(** Copying such a predicate reads the unassigned pointer. *)
Lemma TypedPredicate_copy_undefined (i ty op : Z) (v : T) p :
  TypedPredicate_new i ty op v = Ok p -> op <> SOT_like ->
  TypedPredicate_copy p = Undefined.
Proof.
  intros Hnew Hop; unfold TypedPredicate_copy.
  now rewrite (TypedPredicate_new_regx_unset _ _ _ _ _ Hnew Hop).
Qed.

(** Copying a predicate of the match operator is defined and keeps the
    members. *)
Lemma TypedPredicate_copy_like (i ty : Z) (v : T) p :
  TypedPredicate_new i ty SOT_like v = Ok p ->
  exists q,
    TypedPredicate_copy p = Ok q /\
    col_idx q = col_idx p /\ col_type q = col_type p /\
    op_type q = op_type p /\ is_global_agg q = is_global_agg p /\
    Val q = Val p.
Proof.
  rewrite TypedPredicate_new_like.
  destruct (like_accepted ty v); [|discriminate].
  intros [= <-]; eexists; split; [reflexivity|]; repeat split.
Qed.

End Predicates.

Lemma like_predicate_construction_witness :
  TypedPredicate_new (VT := vt_long) (RB := nonempty_backend)
    0 SDT_INT64 SOT_like 5 = AssertionFailed /\
  (textual_value_type t_string /\ textual_column SDT_STRING /\
   compiles (RegexBackend := nonempty_backend) (lit "ship.*") = true).
Proof.
  split.
  - apply (like_predicate_construction (VT := vt_long)
             (RB := nonempty_backend) 0 SDT_INT64 5).
    intros (Hty & _); destruct Hty as [H | [H | H]]; discriminate H.
  - eapply (proj1 (like_predicate_construction (VT := vt_string)
                     (RB := nonempty_backend) 13 SDT_STRING (lit "ship.*"))).
    reflexivity.
Defined.

(** C10, at a comparison predicate. [TypedPredicate<int64_t>(0, SDT_INT64,
    SOT_lt, 5)] is built with its regex pointer never assigned, and its
    copy constructor reads through that pointer. *)
Theorem TypedPredicate_copy_reads_unset_regx (RB : RegexBackend) :
  exists p,
    TypedPredicate_new (VT := vt_long) 0 SDT_INT64 SOT_lt 5 = Ok p /\
    regx p = None /\
    TypedPredicate_copy p = Undefined.
Proof.
  eexists; split; [reflexivity|]; split; reflexivity.
Qed.

(** ** Aggregates *)

Section Aggregates.

Context {T : Type} {NT : Numeric T}.

Lemma computeAgg_sum (v oldval : T) :
  computeAgg v oldval SOT_sum = Ok (num_add oldval v).
Proof. reflexivity. Qed.

Lemma computeAgg_cnt (v oldval : T) :
  computeAgg v oldval SOT_cnt = Ok (num_add oldval (num_of_int 1)).
Proof. reflexivity. Qed.

Lemma computeAgg_min_smaller (v oldval : T) :
  num_ltb v oldval = true -> computeAgg v oldval SOT_min = Ok v.
Proof.
  intros H; unfold computeAgg; change (SOT_min =? SOT_min) with true.
  cbv iota; now rewrite H.
Qed.

Lemma computeAgg_max_larger (v oldval : T) :
  num_gtb v oldval = true -> computeAgg v oldval SOT_max = Ok v.
Proof.
  intros H; unfold computeAgg.
  change (SOT_max =? SOT_min) with false.
  change (SOT_max =? SOT_max) with true.
  cbv iota; now rewrite H.
Qed.

(** Where the test of a case fails, control runs into the next case. *)
Lemma computeAgg_min_not_smaller (v oldval : T) :
  num_ltb v oldval = false ->
  computeAgg v oldval SOT_min = computeAgg v oldval SOT_max.
Proof.
  intros H; unfold computeAgg.
  change (SOT_min =? SOT_min) with true.
  change (SOT_max =? SOT_min) with false.
  change (SOT_max =? SOT_max) with true.
  cbv iota; now rewrite H.
Qed.

Lemma computeAgg_max_not_larger (v oldval : T) :
  num_gtb v oldval = false ->
  computeAgg v oldval SOT_max = Ok (num_add oldval v).
Proof.
  intros H; unfold computeAgg.
  change (SOT_max =? SOT_min) with false.
  change (SOT_max =? SOT_max) with true.
  cbv iota; now rewrite H.
Qed.

(** No operator makes [computeAgg] stop: the assertion of the [default]
    case holds. *)
Lemma computeAgg_returns (v oldval : T) (op : Z) :
  succeeded (computeAgg v oldval op) = true.
Proof.
  unfold computeAgg.
  destruct (op =? SOT_min); [destruct (num_ltb v oldval);
    [reflexivity | destruct (num_gtb v oldval); reflexivity]|].
  destruct (op =? SOT_max); [destruct (num_gtb v oldval); reflexivity|].
  destruct (op =? SOT_sum); [reflexivity|].
  destruct (op =? SOT_cnt); reflexivity.
Qed.

(** Over a column, [SOT_sum] adds the values up and [SOT_cnt] adds one per
    value. *)
Lemma foldAgg_sum (vals : list T) (acc : T) :
  foldAgg SOT_sum vals acc = Ok (fold_left num_add vals acc).
Proof.
  revert acc; induction vals as [|v vals IH]; intros acc; [reflexivity|].
  cbn [foldAgg fold_left]; rewrite computeAgg_sum; cbn [bind]; apply IH.
Qed.

Lemma foldAgg_cnt (vals : list T) (acc : T) :
  foldAgg SOT_cnt vals acc
  = Ok (fold_left (fun a _ => num_add a (num_of_int 1)) vals acc).
Proof.
  revert acc; induction vals as [|v vals IH]; intros acc; [reflexivity|].
  cbn [foldAgg fold_left]; rewrite computeAgg_cnt; cbn [bind]; apply IH.
Qed.

End Aggregates.

(** C1, at the inputs where the code leaves it. For [SOT_min] with the new
    value 5 and the running value 3 the code returns 5, the larger one;
    with both equal to 3 it returns their sum 6; for [SOT_max] with the new
    value 2 and the running value 3 it returns the sum 5. *)
Theorem computeAgg_min_max_fall_through :
  computeAgg (NT := num_int64) 5 3 SOT_min = Ok 5 /\
  Z.min 5 3 = 3 /\
  computeAgg (NT := num_int64) 3 3 SOT_min = Ok 6 /\
  computeAgg (NT := num_int64) 2 3 SOT_max = Ok 5 /\
  Z.max 2 3 = 3.
Proof. repeat split. Qed.

(** C2. Folding [computeAgg] with [SOT_sum] over 1.0, 5.0, 10.0 from 0
    gives 16.0, and folding it with [SOT_cnt] over the same values from 0
    gives 3. *)
Theorem foldAgg_sum_and_count :
  foldAgg (NT := num_double) SOT_sum
    [1.0%float; 5.0%float; 10.0%float] 0%float = Ok 16.0%float /\
  foldAgg (NT := num_double) SOT_cnt
    [1.0%float; 5.0%float; 10.0%float] 0%float = Ok 3.0%float.
Proof. split; reflexivity. Qed.

(** ** The lineitem test schema *)

(** C9, as the code has it. The test schema string parses to 16 columns
    with the indexes, types and key flags listed; the column at index 12 is
    named [receipdate], not [receiptdate]; projecting by
    [orderkey,quantity] gives the two columns of index 0 and 4. *)
Theorem lineitem_test_schema_columns :
  exists schema projected,
    schemaFromString lineitem_test_schema_string = Ok schema /\
    map (fun c => (idx c, type c, is_key c)) schema
    = [(0, SDT_INT64, true); (1, SDT_INT32, false); (2, SDT_INT32, false);
       (3, SDT_INT64, true); (4, SDT_FLOAT, false); (5, SDT_DOUBLE, false);
       (6, SDT_FLOAT, false); (7, SDT_DOUBLE, false); (8, SDT_CHAR, false);
       (9, SDT_CHAR, false); (10, SDT_DATE, false); (11, SDT_DATE, false);
       (12, SDT_DATE, false); (13, SDT_STRING, false);
       (14, SDT_STRING, false); (15, SDT_STRING, false)] /\
    map name schema
    = map lit
        ["orderkey"; "partkey"; "suppkey"; "linenumber"; "quantity";
         "extendedprice"; "discount"; "tax"; "returnflag"; "linestatus";
         "shipdate"; "commitdate"; "receipdate"; "shipinstruct";
         "shipmode"; "comment"]%string /\
    nth_error (map name schema) 12 <> Some (lit "receiptdate") /\
    schemaFromColNames schema (lit "orderkey,quantity") = Ok projected /\
    map (fun c => (idx c, name c)) projected
    = [(0, lit "orderkey"); (4, lit "quantity")].
Proof.
  do 2 eexists.
  split; [vm_compute; reflexivity|].
  split; [reflexivity|].
  split; [reflexivity|].
  split; [vm_compute; discriminate|].
  split; [vm_compute; reflexivity|reflexivity].
Qed.

(* ================================================================== *)
(** * Part III: further properties of the header                       *)
(* ================================================================== *)

(** ** Index keys: order, equality and canonical form *)

Lemma str_ltb_irrefl (a : cstring) : Std.str_ltb a a = false.
Proof.
  induction a as [|x a IH]; simpl; [reflexivity|].
  now rewrite Z.ltb_irrefl.
Qed.

Lemma str_ltb_asym (a b : cstring) :
  Std.str_ltb a b = true -> Std.str_ltb b a = false.
Proof.
  revert b; induction a as [|x a IH]; intros [|y b]; simpl;
    try discriminate; try reflexivity.
  destruct (Z.ltb_spec (Std.code x) (Std.code y)) as [Hxy | Hxy];
    destruct (Z.ltb_spec (Std.code y) (Std.code x)) as [Hyx | Hyx];
    try lia; try discriminate; try reflexivity.
  apply IH.
Qed.

Lemma u64tostr_inj (v1 v2 : Z) :
  is_uint64 v1 -> is_uint64 v2 -> u64tostr v1 = u64tostr v2 -> v1 = v2.
Proof.
  intros H1 H2 E.
  pose proof (lexical_cast_u64_u64tostr v1 H1) as L1.
  pose proof (lexical_cast_u64_u64tostr v2 H2) as L2.
  rewrite E, L2 in L1; now injection L1.
Qed.

(** X1. Two unsigned 64-bit values have equal keys ([operator==]) exactly
    when they are equal: no two values share a key. *)
Theorem u64tostr_key_eq_iff (v1 v2 : Z) :
  is_uint64 v1 -> is_uint64 v2 ->
  (Std.str_eqb (u64tostr v1) (u64tostr v2) = true <-> v1 = v2).
Proof.
  intros H1 H2; rewrite str_eqb_eq; split.
  - now apply u64tostr_inj.
  - now intros ->.
Qed.

Lemma u64tostr_key_eq_iff_witness :
  Std.str_eqb (u64tostr 10) (u64tostr 9) = true <-> 10 = 9.
Proof.
  apply u64tostr_key_eq_iff; split; vm_compute; discriminate.
Defined.

(** X2. The order of keys is the order of values in both directions: the
    key of [v1] is below the key of [v2] exactly when [v1 < v2]. *)
Theorem u64tostr_key_lt_iff (v1 v2 : Z) :
  is_uint64 v1 -> is_uint64 v2 ->
  (Std.str_ltb (u64tostr v1) (u64tostr v2) = true <-> v1 < v2).
Proof.
  intros H1 H2.
  assert (forall a b, is_uint64 a -> is_uint64 b -> a < b ->
          Std.str_ltb (u64tostr a) (u64tostr b) = true) as Hmono.
  { intros a b Ha Hb Hab; rewrite !u64tostr_fixed by assumption.
    apply fixed_decimal_lt; [destruct Ha; lia|].
    destruct Hb as [_ Hb]; unfold UINT64_MAX in Hb.
    assert (2 ^ 64 - 1 < 10 ^ Z.of_nat 20) by reflexivity; lia. }
  split; [|now apply Hmono].
  intros Hlt.
  destruct (Z.lt_trichotomy v1 v2) as [Hc | [Hc | Hc]]; [assumption | |].
  - subst v2; rewrite str_ltb_irrefl in Hlt; discriminate.
  - apply (Hmono v2 v1 H2 H1), str_ltb_asym in Hc; congruence.
Qed.

Lemma u64tostr_key_lt_iff_witness :
  Std.str_ltb (u64tostr 9) (u64tostr 10) = true <-> 9 < 10.
Proof.
  apply u64tostr_key_lt_iff; split; vm_compute; discriminate.
Defined.

Lemma digits_fold_nonneg (s : cstring) :
  forall acc,
    forallb Std.isdigit s = true -> 0 <= acc ->
    0 <= fold_left (fun a c => a * 10 + Std.digit_val c) s acc.
Proof.
  induction s as [|c s IH]; intros acc Hs Hacc; simpl; [assumption|].
  simpl in Hs; apply andb_true_iff in Hs; destruct Hs as [Hc Hs].
  apply IH; [assumption|].
  apply isdigit_code in Hc; unfold Std.digit_val; lia.
Qed.

Lemma digits_value_nonneg (s : cstring) :
  forallb Std.isdigit s = true -> 0 <= Std.digits_value s.
Proof. intros H; apply digits_fold_nonneg; [assumption | lia]. Qed.

Lemma digit_char_digit_val (c : ascii) :
  Std.isdigit c = true -> Std.digit_char (Std.digit_val c) = c.
Proof.
  intros H; apply isdigit_code in H; apply code_inj.
  unfold Std.digit_val; rewrite code_digit_char; lia.
Qed.

Lemma digits_value_snoc (s : cstring) (c : ascii) :
  Std.digits_value (s ++ [c]) = Std.digits_value s * 10 + Std.digit_val c.
Proof. unfold Std.digits_value; now rewrite fold_left_app. Qed.

(** A run of digits is the fixed-width rendering of its own value. *)
Lemma fixed_decimal_of_digits (s : cstring) :
  forallb Std.isdigit s = true ->
  fixed_decimal (List.length s) (Std.digits_value s) = s.
Proof.
  induction s as [|c s IH] using rev_ind; intros Hs; [reflexivity|].
  rewrite forallb_app in Hs; apply andb_true_iff in Hs.
  destruct Hs as [Hs Hc]; simpl in Hc; rewrite andb_true_r in Hc.
  rewrite length_app, Nat.add_comm, digits_value_snoc; cbn [List.length plus].
  cbn [fixed_decimal].
  pose proof (proj1 (isdigit_code c) Hc) as Hcode.
  assert (0 <= Std.digit_val c < 10) as Hd by (unfold Std.digit_val; lia).
  replace ((Std.digits_value s * 10 + Std.digit_val c) / 10)
    with (Std.digits_value s)
    by (apply (Z.div_unique_pos _ 10 _ (Std.digit_val c)); lia).
  replace ((Std.digits_value s * 10 + Std.digit_val c) mod 10)
    with (Std.digit_val c)
    by (apply (Z.mod_unique_pos _ 10 (Std.digits_value s)); lia).
  now rewrite IH, digit_char_digit_val.
Qed.

(** [lexical_cast] on a run of digits, in or out of range. *)
Lemma lexical_cast_u64_digit_string (s : cstring) :
  s <> [] -> forallb Std.isdigit s = true ->
  Boost.lexical_cast_u64 s
  = if Std.digits_value s <=? UINT64_MAX
    then Ok (Std.digits_value s)
    else Thrown bad_lexical_cast.
Proof.
  intros Hne Hdig; unfold Boost.lexical_cast_u64.
  rewrite split_sign_digits by assumption.
  destruct s as [|c r]; [congruence|].
  now rewrite Hdig.
Qed.

(** X3. Keys are canonical: when [strtou64] reads a string of 20 digits,
    [u64tostr] of the value it stores is that same string. *)
Theorem u64tostr_strtou64 (s : cstring) (out v : Z) :
  List.length s = 20%nat -> forallb Std.isdigit s = true ->
  strtou64 s out = Ok (0, v) ->
  u64tostr v = s.
Proof.
  intros Hlen Hdig; unfold strtou64.
  rewrite lexical_cast_u64_digit_string;
    [|intros ->; discriminate Hlen | assumption].
  destruct (Z.leb_spec (Std.digits_value s) UINT64_MAX) as [Hle | Hgt];
    [|discriminate].
  intros [= <-].
  rewrite u64tostr_fixed, <- Hlen; [now apply fixed_decimal_of_digits|].
  split; [now apply digits_value_nonneg | assumption].
Qed.

Lemma u64tostr_strtou64_witness :
  u64tostr 2018 = lit "00000000000000002018".
Proof.
  apply (u64tostr_strtou64 (lit "00000000000000002018") 0 2018);
    reflexivity.
Defined.

Lemma lexical_cast_u64_result (s : cstring) :
  (exists v, Boost.lexical_cast_u64 s = Ok v /\ is_uint64 v) \/
  Boost.lexical_cast_u64 s = Thrown bad_lexical_cast.
Proof.
  unfold Boost.lexical_cast_u64.
  destruct (Std.split_sign s) as [neg body].
  destruct body as [|c r]; [now right|].
  destruct (forallb Std.isdigit (c :: r)) eqn:Hdig; [|now right].
  destruct (Z.leb_spec (Std.digits_value (c :: r)) UINT64_MAX) as [Hle | Hgt];
    [|now right].
  left; eexists; split; [reflexivity|].
  destruct neg.
  - unfold wrap_u64, is_uint64, UINT64_MAX.
    pose proof (Z.mod_pos_bound (0 - Std.digits_value (c :: r)) (2 ^ 64)
                  ltac:(reflexivity)); lia.
  - split; [now apply digits_value_nonneg | assumption].
Qed.

(** X4. [strtou64] always returns: either 0, with an unsigned 64-bit value
    stored, or [-EIO], with the output cell left as it was.  No exception
    leaves it. *)
Theorem strtou64_returns (s : cstring) (out : Z) :
  (exists v, strtou64 s out = Ok (0, v) /\ is_uint64 v) \/
  strtou64 s out = Ok (- EIO, out).
Proof.
  unfold strtou64.
  destruct (lexical_cast_u64_result s) as [(v & -> & Hv) | ->].
  - left; now exists v.
  - now right.
Qed.

(** X5. On a non-empty run of digits of any width, leading zeros or not,
    [strtou64] stores the value of the digits when it fits 64 bits, and
    returns [-EIO] without storing when it does not. *)
Theorem strtou64_digit_string (s : cstring) (out : Z) :
  s <> [] -> forallb Std.isdigit s = true ->
  strtou64 s out
  = if Std.digits_value s <=? UINT64_MAX
    then Ok (0, Std.digits_value s)
    else Ok (- EIO, out).
Proof.
  intros Hne Hdig; unfold strtou64.
  rewrite lexical_cast_u64_digit_string by assumption.
  now destruct (Std.digits_value s <=? UINT64_MAX).
Qed.

Lemma strtou64_digit_string_witness :
  strtou64 (lit "18446744073709551616") 7 = Ok (- EIO, 7) /\
  strtou64 (lit "000000000000000000000042") 7 = Ok (0, 42).
Proof.
  split.
  - apply (strtou64_digit_string (lit "18446744073709551616") 7);
      [discriminate | reflexivity].
  - apply (strtou64_digit_string (lit "000000000000000000000042") 7);
      [discriminate | reflexivity].
Defined.

Lemma forallb_isdigit_mid (a b : cstring) (c : ascii) :
  Std.isdigit c = false -> forallb Std.isdigit (a ++ c :: b) = false.
Proof.
  intros Hc; rewrite forallb_app; cbn [forallb]; rewrite Hc.
  now rewrite andb_false_r.
Qed.

Lemma lexical_cast_u64_non_digit (s : cstring) :
  forallb Std.isdigit (snd (Std.split_sign s)) = false ->
  Boost.lexical_cast_u64 s = Thrown bad_lexical_cast.
Proof.
  unfold Boost.lexical_cast_u64.
  destruct (Std.split_sign s) as [neg body]; cbn [snd]; intros H.
  destruct body; [reflexivity | now rewrite H].
Qed.

(** X6. A character that is not a digit makes [strtou64] fail wherever it
    stands, the one exception being a sign in the first position; so does
    the empty string.  Nothing after the digits is skipped. *)
Theorem strtou64_rejects_non_digit (a b : cstring) (c : ascii) (out : Z) :
  Std.isdigit c = false ->
  a <> [] \/ (Std.char_eqb c "-" = false /\ Std.char_eqb c "+" = false) ->
  strtou64 (a ++ c :: b) out = Ok (- EIO, out) /\
  strtou64 [] out = Ok (- EIO, out).
Proof.
  intros Hc Hpos; split; [|reflexivity].
  unfold strtou64; rewrite lexical_cast_u64_non_digit; [reflexivity|].
  destruct a as [|x a].
  - destruct Hpos as [Hne | [Hm Hp]]; [congruence|].
    cbn [app Std.split_sign]; rewrite Hm, Hp; cbn [snd forallb].
    now rewrite Hc.
  - cbn [app Std.split_sign].
    destruct (Std.char_eqb x "-"); [|destruct (Std.char_eqb x "+")];
      cbn [snd].
    + now apply forallb_isdigit_mid.
    + now apply forallb_isdigit_mid.
    + now apply (forallb_isdigit_mid (x :: a)).
Qed.

Lemma strtou64_rejects_non_digit_witness :
  strtou64 (lit "42 ") 7 = Ok (- EIO, 7) /\ strtou64 [] 7 = Ok (- EIO, 7).
Proof.
  apply (strtou64_rejects_non_digit (lit "42") [] " "%char 7);
    [reflexivity | left; discriminate].
Defined.

(** ** Column descriptors: the two constructors and [toString] *)

Lemma c_str_digits_app (s j : cstring) :
  forallb Std.isdigit s = true -> Std.c_str (s ++ j) = s ++ Std.c_str j.
Proof.
  induction s as [|c s IH]; simpl; [reflexivity|].
  rewrite andb_true_iff; intros [Hc Hs].
  apply isdigit_code in Hc.
  destruct (Z.eqb_spec (Std.code c) 0); [lia|].
  now rewrite IH.
Qed.

Lemma no_leading_digit_c_str (j : cstring) :
  no_leading_digit j = true -> no_leading_digit (Std.c_str j) = true.
Proof.
  destruct j as [|c r]; simpl; [reflexivity|].
  now destruct (Std.code c =? 0).
Qed.

Lemma take_digits_app (s j : cstring) :
  forallb Std.isdigit s = true -> no_leading_digit j = true ->
  Std.take_digits (s ++ j) = s.
Proof.
  intros Hs Hj; induction s as [|c s IH]; simpl.
  - destruct j as [|d r]; [reflexivity|].
    simpl in *; apply negb_true_iff in Hj; now rewrite Hj.
  - simpl in Hs; apply andb_true_iff in Hs; destruct Hs as [Hc Hs].
    now rewrite Hc, IH.
Qed.

Lemma in_int_range_iff (v : Z) :
  (INT_MIN <=? v) && (v <=? INT_MAX) = true <-> is_int v.
Proof. unfold is_int; rewrite andb_true_iff, !Z.leb_le; tauto. Qed.

(** [stoi] on digits followed by anything that is not a digit. *)
Lemma stoi_digits_prefix (s j : cstring) :
  s <> [] -> forallb Std.isdigit s = true -> no_leading_digit j = true ->
  Std.stoi (Std.c_str (s ++ j))
  = if (INT_MIN <=? Std.digits_value s) && (Std.digits_value s <=? INT_MAX)
    then Ok (Std.digits_value s)
    else Thrown out_of_range.
Proof.
  intros Hne Hdig Hj; unfold Std.stoi.
  rewrite c_str_digits_app by assumption.
  apply no_leading_digit_c_str in Hj.
  destruct s as [|c r]; [congruence|].
  assert (Std.isdigit c = true) as Hc
    by (simpl in Hdig; now apply andb_true_iff in Hdig).
  cbn [app Std.skip_space]; rewrite (isdigit_not_space c Hc).
  change (c :: r ++ Std.c_str j) with ((c :: r) ++ Std.c_str j).
  replace (Std.split_sign ((c :: r) ++ Std.c_str j))
    with (false, (c :: r) ++ Std.c_str j).
  - now rewrite take_digits_app by assumption.
  - pose proof (split_sign_digits [c]) as Hsig.
    cbn [forallb] in Hsig; rewrite Hc in Hsig; specialize (Hsig eq_refl).
    cbn [Std.split_sign app] in *.
    destruct (Std.char_eqb c "-"); [discriminate|].
    destruct (Std.char_eqb c "+"); [discriminate|reflexivity].
Qed.

Lemma stoi_minus_digits_prefix (s j : cstring) :
  s <> [] -> forallb Std.isdigit s = true -> no_leading_digit j = true ->
  Std.stoi (Std.c_str ("-"%char :: s ++ j))
  = if (INT_MIN <=? - Std.digits_value s)
       && (- Std.digits_value s <=? INT_MAX)
    then Ok (- Std.digits_value s)
    else Thrown out_of_range.
Proof.
  intros Hne Hdig Hj; unfold Std.stoi.
  cbn [Std.c_str]; change (Std.code "-" =? 0) with false; cbv iota.
  rewrite c_str_digits_app by assumption.
  apply no_leading_digit_c_str in Hj.
  cbn [Std.skip_space]; change (Std.isspace "-") with false; cbv iota.
  cbn [Std.split_sign]; change (Std.char_eqb "-" "-") with true; cbv iota.
  rewrite take_digits_app by assumption.
  destruct s as [|c r]; [congruence | reflexivity].
Qed.

(** The decimal text of any integer, followed by anything that is not a
    digit, is read back when the integer is an [int] and refused as out of
    range when it is not. *)
Lemma stoi_to_string_prefix (v : Z) (j : cstring) :
  no_leading_digit j = true ->
  Std.stoi (Std.c_str (Std.to_string v ++ j))
  = if (INT_MIN <=? v) && (v <=? INT_MAX) then Ok v else Thrown out_of_range.
Proof.
  intros Hj; unfold Std.to_string.
  destruct (Z.ltb_spec v 0) as [Hneg | Hpos].
  - destruct (utoa_digits (- v) ltac:(lia)) as (Hne & Hdig & Hval).
    cbn [app]; rewrite stoi_minus_digits_prefix by assumption.
    rewrite Hval; now replace (- - v) with v by lia.
  - destruct (utoa_digits v Hpos) as (Hne & Hdig & Hval).
    rewrite stoi_digits_prefix by assumption; now rewrite Hval.
Qed.

Lemma to_string_inj (v1 v2 : Z) :
  Std.to_string v1 = Std.to_string v2 -> v1 = v2.
Proof.
  unfold Std.to_string.
  destruct (Z.ltb_spec v1 0) as [H1 | H1];
    destruct (Z.ltb_spec v2 0) as [H2 | H2]; intros E.
  - injection E as E.
    destruct (utoa_digits (- v1) ltac:(lia)) as (_ & _ & V1).
    destruct (utoa_digits (- v2) ltac:(lia)) as (_ & _ & V2).
    rewrite E in V1; lia.
  - destruct (utoa_digits v2 H2) as (_ & D2 & _).
    rewrite <- E in D2; discriminate D2.
  - destruct (utoa_digits v1 H1) as (_ & D1 & _).
    rewrite E in D1; discriminate D1.
  - destruct (utoa_digits v1 H1) as (_ & _ & V1).
    destruct (utoa_digits v2 H2) as (_ & _ & V2).
    rewrite E in V1; lia.
Qed.

Lemma to_string_bool_inj (b1 b2 : bool) :
  Std.to_string_bool b1 = Std.to_string_bool b2 -> b1 = b2.
Proof. destruct b1, b2; intros E; (reflexivity || discriminate E). Qed.

Lemma word_blank_split (a b x y : cstring) :
  forallb (fun c => negb (Std.isspace c)) a = true ->
  forallb (fun c => negb (Std.isspace c)) b = true ->
  a ++ " "%char :: x = b ++ " "%char :: y ->
  a = b /\ x = y.
Proof.
  revert b; induction a as [|c a IH]; intros [|d b] Ha Hb E; simpl in *.
  - injection E as E; auto.
  - injection E as <- E; discriminate Hb.
  - injection E as -> E; discriminate Ha.
  - injection E as <- E.
    apply andb_true_iff in Ha, Hb.
    destruct (IH b (proj2 Ha) (proj2 Hb) E) as [-> ->]; auto.
Qed.

(** X7. Both constructors build the same descriptor: for [int] members,
    the five-string constructor on the texts of [i], [t], [key] and [nulls]
    returns what the typed constructor returns on the values themselves,
    a failed assertion included. *)
Theorem col_info_constructors_agree
    (i t : Z) (key nulls : bool) (n : cstring) :
  is_int i -> is_int t ->
  col_info_of_strings
    (Std.to_string i) (Std.to_string t)
    (Std.to_string_bool key) (Std.to_string_bool nulls) n
  = col_info_new i t key nulls n.
Proof.
  intros Hi Ht; unfold col_info_of_strings, col_info_new.
  rewrite !stoi_to_string by assumption; cbn [bind].
  now rewrite !to_string_bool_front.
Qed.

Lemma col_info_constructors_agree_witness :
  col_info_of_strings (lit "7") (lit "16") (lit "0") (lit "1") (lit "blob")
  = AssertionFailed.
Proof.
  apply (col_info_constructors_agree 7 16 false true (lit "blob"));
    split; vm_compute; discriminate.
Defined.

(** X8. [toString] is injective: two descriptors with the same text are
    the same descriptor, whatever their names hold. *)
Theorem toString_injective (c1 c2 : col_info) :
  toString c1 = toString c2 -> c1 = c2.
Proof.
  unfold toString; cbn [lit list_ascii_of_string app]; intros E.
  injection E as E.
  apply word_blank_split in E; try apply to_string_word.
  destruct E as [Eidx E].
  apply word_blank_split in E; try apply to_string_word.
  destruct E as [Etype E].
  apply word_blank_split in E; try apply to_string_bool_word.
  destruct E as [Ekey E].
  apply word_blank_split in E; try apply to_string_bool_word.
  destruct E as [Enull E].
  change [" "%char; " "%char; " "%char] with (lit "   ") in E.
  apply app_inv_tail in E.
  apply to_string_inj in Eidx, Etype.
  apply to_string_bool_inj in Ekey, Enull.
  destruct c1, c2; simpl in *; congruence.
Qed.

Lemma toString_injective_witness : quantity_col = quantity_col.
Proof. apply toString_injective; reflexivity. Defined.

(** X9. The five-string constructor reads only the leading numeral of its
    idx and type texts: whatever follows the digits, as long as it does not
    go on with a digit, is ignored, and the flags are true exactly when
    their text starts with the character 1. *)
Theorem col_info_of_strings_ignores_trailing_text
    (i t : Z) (j1 j2 key nulls n : cstring) :
  is_int i -> SDT_INT8 <= t <= SDT_STRING ->
  no_leading_digit j1 = true -> no_leading_digit j2 = true ->
  col_info_of_strings
    (Std.to_string i ++ j1) (Std.to_string t ++ j2) key nulls n
  = Ok {| idx := i; type := t;
          is_key := Std.char_eqb (Std.front key) "1";
          nullable := Std.char_eqb (Std.front nulls) "1";
          name := n |}.
Proof.
  intros Hi Ht Hj1 Hj2; unfold col_info_of_strings.
  assert (is_int t) as Hti.
  { unfold is_int, INT_MIN, INT_MAX, SDT_INT8, SDT_STRING in *; lia. }
  rewrite !stoi_to_string_prefix by assumption.
  rewrite (proj2 (in_int_range_iff i) Hi), (proj2 (in_int_range_iff t) Hti).
  cbn [bind type].
  now rewrite (proj2 (in_type_range t) Ht).
Qed.

Lemma col_info_of_strings_ignores_trailing_text_witness :
  col_info_of_strings (lit "4th") (lit "12.5") (lit "10") (lit "yes")
    (lit "quantity")
  = Ok {| idx := 4; type := 12; is_key := true; nullable := false;
          name := lit "quantity" |}.
Proof.
  apply (col_info_of_strings_ignores_trailing_text
           4 12 (lit "th") (lit ".5") (lit "10") (lit "yes")
           (lit "quantity")); try reflexivity; split; vm_compute;
    discriminate.
Defined.

(** X10. A numeral outside the range of [int] is not wrapped to an [int]:
    as the idx text it makes the five-string constructor throw
    [out_of_range], and so it does as the type text once the idx is read. *)
Theorem col_info_of_strings_out_of_range
    (v i : Z) (t key nulls n : cstring) :
  ~ is_int v -> is_int i ->
  col_info_of_strings (Std.to_string v) t key nulls n = Thrown out_of_range /\
  col_info_of_strings (Std.to_string i) (Std.to_string v) key nulls n
  = Thrown out_of_range.
Proof.
  intros Hv Hi; unfold col_info_of_strings.
  pose proof (stoi_to_string_prefix v [] eq_refl) as Sv.
  pose proof (stoi_to_string_prefix i [] eq_refl) as Si.
  rewrite app_nil_r in Sv, Si.
  rewrite (proj2 (in_int_range_iff i) Hi) in Si.
  destruct ((INT_MIN <=? v) && (v <=? INT_MAX)) eqn:E.
  - apply in_int_range_iff in E; contradiction.
  - rewrite Sv, Si; split; reflexivity.
Qed.

Lemma col_info_of_strings_out_of_range_witness :
  col_info_of_strings (lit "2147483648") (lit "4") (lit "1") (lit "0")
    (lit "orderkey")
  = Thrown out_of_range.
Proof.
  refine (proj1 (col_info_of_strings_out_of_range
                   2147483648 0 (lit "4") (lit "1") (lit "0")
                   (lit "orderkey") _ _)).
  - intros [_ H]; vm_compute in H; apply H; reflexivity.
  - split; vm_compute; discriminate.
Defined.

(** ** Typed predicates: what the constructor accepts *)

Lemma one_of_In (x : Z) (l : list Z) : one_of x l = true <-> In x l.
Proof.
  unfold one_of; rewrite existsb_exists; split.
  - intros (y & Hy & E); apply Z.eqb_eq in E; now subst.
  - intros H; exists x; split; [assumption | apply Z.eqb_refl].
Qed.

Lemma is_same_vector (t : cpp_type) : is_same t (t_vector t) = false.
Proof. induction t; simpl; auto. Qed.

Lemma verify_op_comparison (T : cpp_type) (ty op : Z) :
  In op comparison_ops ->
  verify_op T ty op
  = assert (is_arithmetic T && one_of ty numeric_columns).
Proof.
  intros H; simpl in H.
  repeat (destruct H as [<- | H]; [reflexivity|]); contradiction.
Qed.

Lemma verify_op_like (T : cpp_type) (ty : Z) :
  verify_op T ty SOT_like
  = assert ((is_same T t_string || is_same T t_uchar || is_same T t_char)
            && one_of ty textual_columns).
Proof. reflexivity. Qed.

Lemma verify_op_logical (T : cpp_type) (ty op : Z) :
  In op logical_ops ->
  verify_op T ty op
  = (assert! is_integral T ;; assert (one_of ty integral_columns)).
Proof.
  intros H; simpl in H.
  repeat (destruct H as [<- | H]; [reflexivity|]); contradiction.
Qed.

Lemma verify_op_bitwise (T : cpp_type) (ty op : Z) :
  In op bitwise_ops ->
  verify_op T ty op = (assert! is_integral T ;; assert (is_unsigned T)).
Proof.
  intros H; simpl in H.
  repeat (destruct H as [<- | H]; [reflexivity|]); contradiction.
Qed.

Lemma verify_op_complete (T : cpp_type) (ty op : Z) :
  accepted_combination T ty op -> verify_op T ty op = Ok tt.
Proof.
  intros [(Hop & Ha & Hty) | [(-> & HT & Hty) | [(Hop & Hi & Hty)
                                               | (Hop & Hi & Hu)]]].
  - rewrite verify_op_comparison, Ha by assumption.
    now rewrite (proj2 (one_of_In _ _) Hty).
  - rewrite verify_op_like.
    rewrite (proj2 (textual_value_type_iff T) HT).
    unfold textual_columns; now rewrite (proj2 (textual_column_iff ty) Hty).
  - rewrite verify_op_logical, Hi by assumption.
    now rewrite (proj2 (one_of_In _ _) Hty).
  - now rewrite verify_op_bitwise, Hi, Hu by assumption.
Qed.

Ltac case_label E :=
  match goal with
  | |- context [if one_of ?x ?l then _ else _] => destruct (one_of x l) eqn:E
  end.

Lemma verify_op_sound (T : cpp_type) (ty op : Z) :
  verify_op T ty op = Ok tt -> accepted_combination T ty op.
Proof.
  unfold verify_op, accepted_combination.
  case_label E1.
  { destruct (is_arithmetic T) eqn:Ha; [|discriminate].
    destruct (one_of ty _) eqn:Et; [|discriminate].
    intros _; left; repeat split; try assumption; now apply one_of_In. }
  destruct (op =? SOT_like) eqn:E2.
  { apply Z.eqb_eq in E2.
    destruct (is_same T t_string || is_same T t_uchar || is_same T t_char)
      eqn:HT; [|discriminate].
    destruct (one_of ty _) eqn:Et; [|discriminate].
    intros _; right; left; repeat split; try assumption.
    - now apply textual_value_type_iff.
    - now apply textual_column_iff. }
  case_label E3.
  { rewrite is_same_vector; discriminate. }
  destruct (op =? SOT_between); [discriminate|].
  case_label E4.
  { destruct (is_integral T) eqn:Hi; [|discriminate].
    destruct (one_of ty _) eqn:Et; [|discriminate].
    intros _; right; right; left; repeat split; try assumption;
      now apply one_of_In. }
  case_label E5; [|discriminate].
  destruct (is_integral T) eqn:Hi; [|discriminate].
  destruct (is_unsigned T) eqn:Hu; [|discriminate].
  intros _; right; right; right; repeat split; try assumption;
    now apply one_of_In.
Qed.

Lemma verify_op_outcome (T : cpp_type) (ty op : Z) :
  verify_op T ty op = Ok tt \/ verify_op T ty op = AssertionFailed.
Proof.
  unfold verify_op, assert, bind.
  repeat match goal with
         | |- context [if ?b then _ else _] => destruct b
         end; auto.
Qed.

Section PredicateConstruction.

Context {T : Type} {VT : ValueType T} {RB : RegexBackend}.

Lemma TypedPredicate_new_verified (i ty op : Z) (v : T) p :
  TypedPredicate_new i ty op v = Ok p ->
  accepted_combination (type_of T) ty op.
Proof.
  unfold TypedPredicate_new; cbn [col_type op_type].
  destruct (verify_op_outcome (type_of T) ty op) as [E | E]; rewrite E.
  - intros _; now apply verify_op_sound.
  - discriminate.
Qed.

(** X11. The constructor returns a predicate exactly for four families of
    value type, column type and operator: a comparison, arithmetic or
    aggregate operator with an arithmetic value on a numeric column; the
    match operator with a textual value on a textual column and a pattern
    that compiles; a logical operator with an integral value on an
    integral column; a bitwise operator with an unsigned integral value.
    Everything else stops at an assertion. *)
Theorem TypedPredicate_new_accepts (i ty op : Z) (v : T) :
  (accepted_combination (type_of T) ty op /\
   (op = SOT_like -> compiles (as_pattern v) = true) ->
   exists p, TypedPredicate_new i ty op v = Ok p) /\
  (~ (accepted_combination (type_of T) ty op /\
      (op = SOT_like -> compiles (as_pattern v) = true)) ->
   TypedPredicate_new i ty op v = AssertionFailed).
Proof.
  unfold TypedPredicate_new, RE2_new, Val.
  cbn [col_idx col_type op_type is_global_agg value val re_ok].
  split.
  - intros [Hacc Hpat].
    rewrite (verify_op_complete _ _ _ Hacc); cbn [bind].
    destruct (Z.eqb_spec op SOT_like) as [E | E]; [|eauto].
    rewrite (Hpat E); cbn [assert bind]; eauto.
  - intros Hno.
    destruct (verify_op_outcome (type_of T) ty op) as [E | E]; rewrite E;
      [|reflexivity].
    cbn [bind]; apply verify_op_sound in E.
    destruct (Z.eqb_spec op SOT_like) as [El | El].
    + destruct (compiles (as_pattern v)) eqn:Ec; [|reflexivity].
      exfalso; apply Hno; auto.
    + exfalso; apply Hno; split; [assumption | congruence].
Qed.

End PredicateConstruction.

Lemma TypedPredicate_new_accepts_witness :
  (exists p,
     TypedPredicate_new (VT := vt_ulong) (RB := nonempty_backend)
       0 SDT_UINT64 SOT_bitwise_and 255 = Ok p) /\
  TypedPredicate_new (VT := vt_string) (RB := nonempty_backend)
    0 SDT_STRING SOT_eq (lit "RAIL") = AssertionFailed.
Proof.
  split.
  - apply (TypedPredicate_new_accepts (VT := vt_ulong)
             (RB := nonempty_backend) 0 SDT_UINT64 SOT_bitwise_and 255).
    split; [|discriminate].
    right; right; right; repeat split; simpl; auto.
  - apply (TypedPredicate_new_accepts (VT := vt_string)
             (RB := nonempty_backend) 0 SDT_STRING SOT_eq (lit "RAIL")).
    intros [[(_ & H & _) | [(H & _) | [(_ & H & _) | (_ & H & _)]]] _];
      discriminate H.
Defined.

(** ** Typed predicates: consequences for users of the constructor *)

Lemma accepted_op_range (T : cpp_type) (ty op : Z) :
  accepted_combination T ty op ->
  SOT_lt <= op <= SOT_like \/ SOT_logical_or <= op <= SOT_bitwise_or.
Proof.
  intros [(H & _) | [(-> & _) | [(H & _) | (H & _)]]];
    try (simpl in H; unfold SOT_lt, SOT_like, SOT_logical_or,
           SOT_bitwise_or; intuition (subst; vm_compute; intuition congruence)).
  left; split; vm_compute; discriminate.
Qed.

Section PredicateInvariants.

Context {T : Type} {VT : ValueType T} {RB : RegexBackend}.

(** X12. No predicate is ever built with a membership operator ([SOT_in],
    [SOT_not_in]), with [SOT_between], or with an operator outside
    [SOT_FIRST .. SOT_LAST]: for every value type, column type and value the
    constructor stops at an assertion. *)
Theorem TypedPredicate_new_unimplemented_op (i ty op : Z) (v : T) :
  op = SOT_in \/ op = SOT_not_in \/ op = SOT_between \/
  op < SOT_FIRST \/ SOT_LAST < op ->
  TypedPredicate_new i ty op v = AssertionFailed.
Proof.
  intros Hop.
  destruct (verify_op_outcome (type_of T) ty op) as [E | E].
  - apply verify_op_sound, accepted_op_range in E.
    unfold SOT_in, SOT_not_in, SOT_between, SOT_FIRST, SOT_LAST, SOT_lt,
      SOT_like, SOT_logical_or, SOT_bitwise_or in *; lia.
  - unfold TypedPredicate_new; cbn [col_type op_type]; now rewrite E.
Qed.

(** X13. On a column of type [SDT_DATE] only the bitwise operators can be
    built, and only with an unsigned integral value: no comparison,
    aggregate, match or logical predicate exists on a date column. *)
Theorem TypedPredicate_new_date_column (i op : Z) (v : T) p :
  TypedPredicate_new i SDT_DATE op v = Ok p ->
  In op bitwise_ops /\
  is_integral (type_of T) = true /\ is_unsigned (type_of T) = true.
Proof.
  intros H; apply TypedPredicate_new_verified in H.
  destruct H as [(_ & _ & H) | [(_ & _ & H) | [(_ & _ & H) | H]]];
    [exfalso | exfalso | exfalso | exact H].
  - simpl in H; intuition discriminate.
  - destruct H as [H | [H | H]]; discriminate H.
  - simpl in H; intuition discriminate.
Qed.

(** X14. The bitwise operators do not look at the column type: with an
    unsigned integral value type the constructor returns a predicate for
    every [int] given as column type, inside [SkyDataType] or not, and the
    predicate reports that column type. *)
Theorem TypedPredicate_new_bitwise_any_column (i ty op : Z) (v : T) :
  In op bitwise_ops ->
  is_integral (type_of T) = true -> is_unsigned (type_of T) = true ->
  exists p,
    TypedPredicate_new i ty op v = Ok p /\
    colIdx p = i /\ colType p = ty /\ opType p = op /\ Val p = v /\
    getRegex p = None.
Proof.
  intros Hop Hi Hu.
  assert (op <> SOT_like) as Hne
    by (simpl in Hop; intuition (subst; discriminate)).
  unfold TypedPredicate_new; cbn [col_type op_type].
  rewrite verify_op_bitwise, Hi, Hu by assumption; cbn [assert bind].
  apply Z.eqb_neq in Hne; rewrite Hne.
  eexists; split; [reflexivity|]; repeat split.
Qed.

(** X15. A constructed predicate reports what it was built with, is a
    global aggregate exactly when its operator is one of [SOT_min],
    [SOT_max], [SOT_sum], [SOT_cnt], and holds a regex exactly when its
    operator is [SOT_like]; that regex is compiled from the value and is
    valid. *)
Theorem TypedPredicate_new_reports (i ty op : Z) (v : T) p :
  TypedPredicate_new i ty op v = Ok p ->
  colIdx p = i /\ colType p = ty /\ opType p = op /\ Val p = v /\
  (isGlobalAgg p = true <-> In op aggregate_ops) /\
  (op = SOT_like ->
   getRegex p = Some {| re_pattern := as_pattern v; re_ok := true |}) /\
  (op <> SOT_like -> getRegex p = None).
Proof.
  intros H.
  destruct (TypedPredicate_new_members _ _ _ _ _ H)
    as (Hi & Ht & Ho & Hv & Hagg).
  unfold colIdx, colType, opType, isGlobalAgg, getRegex.
  repeat split; try assumption.
  - rewrite Hagg; apply one_of_In.
  - rewrite Hagg; apply one_of_In.
  - intros ->; rewrite TypedPredicate_new_like in H.
    destruct (like_accepted ty v); [|discriminate].
    now injection H as <-.
  - intros Hne; exact (TypedPredicate_new_regx_unset _ _ _ _ _ H Hne).
Qed.

(** X16. A value type that is not arithmetic, such as [std::string], can
    only carry the match operator: every predicate built with it has
    [SOT_like] as its operator and a textual column. *)
Theorem TypedPredicate_new_non_arithmetic (i ty op : Z) (v : T) p :
  is_arithmetic (type_of T) = false ->
  TypedPredicate_new i ty op v = Ok p ->
  op = SOT_like /\ textual_column ty.
Proof.
  intros Hna H; apply TypedPredicate_new_verified in H.
  unfold is_arithmetic in Hna; apply orb_false_iff in Hna.
  destruct Hna as [Hni Hnf].
  destruct H as [(_ & Ha & _) | [(Hop & _ & Hty) | [(_ & Hi & _)
                                                  | (_ & Hi & _)]]];
    try congruence; [|auto].
  unfold is_arithmetic in Ha; rewrite Hni, Hnf in Ha; discriminate.
Qed.

(** X17. Copying a predicate of the match operator gives the predicate
    back, regex included: the copy constructor is the identity on every
    predicate the constructor built with [SOT_like]. *)
Theorem TypedPredicate_copy_like_identity (i ty : Z) (v : T) p :
  TypedPredicate_new i ty SOT_like v = Ok p ->
  TypedPredicate_copy p = Ok p.
Proof.
  rewrite TypedPredicate_new_like.
  destruct (like_accepted ty v) eqn:E; [|discriminate].
  apply like_accepted_iff in E; destruct E as (_ & _ & Ec).
  intros [= <-]; unfold TypedPredicate_copy, RE2_new.
  cbn [regx re_pattern col_idx col_type op_type is_global_agg value val].
  now rewrite Ec.
Qed.

End PredicateInvariants.

Lemma TypedPredicate_new_unimplemented_op_witness :
  TypedPredicate_new (VT := vt_long) (RB := nonempty_backend)
    3 SDT_INT64 SOT_between 5 = AssertionFailed.
Proof.
  apply (TypedPredicate_new_unimplemented_op (VT := vt_long)
           (RB := nonempty_backend) 3 SDT_INT64 SOT_between 5).
  right; right; left; reflexivity.
Defined.

Lemma TypedPredicate_new_date_column_witness :
  In SOT_bitwise_or bitwise_ops /\
  is_integral t_ulong = true /\ is_unsigned t_ulong = true.
Proof.
  eapply (TypedPredicate_new_date_column (VT := vt_ulong)
            (RB := nonempty_backend) 10 SOT_bitwise_or 1).
  reflexivity.
Defined.

Lemma TypedPredicate_new_bitwise_any_column_witness :
  exists p,
    TypedPredicate_new (VT := vt_ulong) (RB := nonempty_backend)
      0 999 SOT_bitwise_and 255 = Ok p /\
    colIdx p = 0 /\ colType p = 999 /\ opType p = SOT_bitwise_and /\
    Val p = 255 /\ getRegex p = None.
Proof.
  apply (TypedPredicate_new_bitwise_any_column (VT := vt_ulong)
           (RB := nonempty_backend) 0 999 SOT_bitwise_and 255);
    [left; reflexivity | reflexivity | reflexivity].
Defined.

Lemma TypedPredicate_new_reports_witness :
  exists p : TypedPredicate Z,
    colIdx p = 4 /\ colType p = SDT_INT64 /\ opType p = SOT_sum /\
    Val p = 0 /\ (isGlobalAgg p = true <-> In SOT_sum aggregate_ops).
Proof.
  eexists.
  pose proof (TypedPredicate_new_reports (VT := vt_long)
                (RB := nonempty_backend) 4 SDT_INT64 SOT_sum 0 _ eq_refl)
    as (H1 & H2 & H3 & H4 & H5 & _).
  repeat split; [exact H1 | exact H2 | exact H3 | exact H4
                | apply H5 | apply H5].
Defined.

Lemma TypedPredicate_new_non_arithmetic_witness :
  SOT_like = SOT_like /\ textual_column SDT_STRING.
Proof.
  eapply (TypedPredicate_new_non_arithmetic (VT := vt_string)
            (RB := nonempty_backend) 13 SDT_STRING SOT_like (lit "ship.*"));
    reflexivity.
Defined.

Lemma TypedPredicate_copy_like_identity_witness :
  exists p,
    TypedPredicate_new (VT := vt_string) (RB := nonempty_backend)
      13 SDT_STRING SOT_like (lit "ship.*") = Ok p /\
    TypedPredicate_copy (RB := nonempty_backend) p = Ok p.
Proof.
  eexists; split; [reflexivity|].
  eapply (TypedPredicate_copy_like_identity (VT := vt_string)
            (RB := nonempty_backend) 13 SDT_STRING (lit "ship.*")).
  reflexivity.
Defined.

(** ** Aggregates: other operators, and unsigned 64-bit columns *)

(** X18. For an operator that is not one of the four aggregates
    [computeAgg] fails no assertion: it returns the running value as it
    was. *)
Theorem computeAgg_other_op
    (T : Type) (NT : Numeric T) (v oldval : T) (op : Z) :
  ~ In op aggregate_ops -> computeAgg v oldval op = Ok oldval.
Proof.
  intros H; unfold computeAgg.
  assert (op <> SOT_min /\ op <> SOT_max /\ op <> SOT_sum /\ op <> SOT_cnt)
    as (H1 & H2 & H3 & H4) by (simpl in H; intuition).
  apply Z.eqb_neq in H1, H2, H3, H4.
  now rewrite H1, H2, H3, H4.
Qed.

Lemma computeAgg_other_op_witness :
  computeAgg (NT := num_double) 5.0%float 3.0%float SOT_mul = Ok 3.0%float.
Proof.
  apply (computeAgg_other_op float num_double).
  simpl; intuition discriminate.
Defined.

Lemma fold_add_u64 (vals : list Z) :
  forall acc,
    is_uint64 acc ->
    fold_left (fun a b => wrap_u64 (a + b)) vals acc
    = (acc + total vals) mod 2 ^ 64.
Proof.
  unfold wrap_u64, is_uint64, UINT64_MAX.
  induction vals as [|v vals IH]; intros acc Hacc; cbn [fold_left total
    fold_right].
  - rewrite Z.add_0_r, Z.mod_small; lia.
  - rewrite IH.
    + rewrite Zplus_mod_idemp_l; f_equal; unfold total; lia.
    + pose proof (Z.mod_pos_bound (acc + v) (2 ^ 64) ltac:(reflexivity)).
      lia.
Qed.

(** X19. Over unsigned 64-bit values, folding [SOT_sum] from a running
    value gives the running value plus the sum of the column, reduced
    modulo 2^64. *)
Theorem foldAgg_sum_uint64 (vals : list Z) (acc : Z) :
  is_uint64 acc ->
  foldAgg (NT := num_uint64) SOT_sum vals acc
  = Ok ((acc + total vals) mod 2 ^ 64).
Proof.
  intros Hacc; rewrite foldAgg_sum; f_equal.
  now apply fold_add_u64.
Qed.

Lemma foldAgg_sum_uint64_witness :
  foldAgg (NT := num_uint64) SOT_sum [18446744073709551615; 2; 3] 0
  = Ok ((0 + total [18446744073709551615; 2; 3]) mod 2 ^ 64).
Proof.
  apply foldAgg_sum_uint64; split; vm_compute; discriminate.
Defined.

Lemma fold_count_u64 (vals : list Z) :
  forall acc,
    is_uint64 acc ->
    fold_left (fun a _ => wrap_u64 (a + 1)) vals acc
    = (acc + Z.of_nat (List.length vals)) mod 2 ^ 64.
Proof.
  unfold wrap_u64, is_uint64, UINT64_MAX.
  induction vals as [|v vals IH]; intros acc Hacc;
    cbn [fold_left List.length].
  - change (Z.of_nat 0) with 0; rewrite Z.add_0_r, Z.mod_small; lia.
  - rewrite IH.
    + rewrite Zplus_mod_idemp_l; f_equal; lia.
    + pose proof (Z.mod_pos_bound (acc + 1) (2 ^ 64) ltac:(reflexivity)).
      lia.
Qed.

(** X20. Over unsigned 64-bit values, folding [SOT_cnt] from a running
    value adds the number of values, modulo 2^64, whatever the values
    are. *)
Theorem foldAgg_cnt_uint64 (vals : list Z) (acc : Z) :
  is_uint64 acc ->
  foldAgg (NT := num_uint64) SOT_cnt vals acc
  = Ok ((acc + Z.of_nat (List.length vals)) mod 2 ^ 64).
Proof.
  intros Hacc; rewrite foldAgg_cnt; f_equal.
  cbn [num_add num_of_int num_uint64].
  change (wrap_u64 1) with 1.
  now apply fold_count_u64.
Qed.

Lemma foldAgg_cnt_uint64_witness :
  foldAgg (NT := num_uint64) SOT_cnt [10; 50; 100] 0
  = Ok ((0 + Z.of_nat (List.length [10; 50; 100])) mod 2 ^ 64).
Proof.
  apply foldAgg_cnt_uint64; split; vm_compute; discriminate.
Defined.
